(** * rodario: decorated-method pipeline, singular lock and actor proxy

    A shallow embedding of [rodario/decorators.py] and
    [rodario/actors/proxy.py].

    Python code that talks to the outside (redis, the clock, uuid4, user
    supplied callables, queues) is embedded as a finite interaction tree
    [prog]: a program either returns, raises, or emits an event and
    continues with the answer.  A [handler] gives the events a meaning in
    some world; [run] executes a program against a handler and records the
    trace of events with their answers.  Statements quantified over every
    handler therefore hold for every behaviour of the environment,
    including answers produced by other clients of the same redis server.

    Python floats are IEEE 754 binary64 numbers and are embedded as Rocq's
    primitive floats, so [current + expiry + 1] and [current < x] are the
    very operations the interpreter performs. *)

From Stdlib Require Import ZArith List.
From Stdlib Require Import Floats.PrimFloat.
From Stdlib Require Uint63.
From stdpp Require Import base option list gmap strings.

Set Default Proof Using "Type".

(** ** Python values and exceptions *)

(** Connection handle of a redis client object. *)
Definition conn := nat.

#[warnings="-register-all"]
Inductive value : Type :=
| VNone
| VBool (b : bool)
| VInt (n : Z)
| VFloat (f : float)
| VStr (s : string)
| VList (l : list value)
(** An instance with identity [oid]; [redis] is its [_redis] attribute,
    when it has one. *)
| VObject (oid : nat) (redis : option conn).

Inductive exn : Type :=
| AttributeError (attr : string)
| TypeError (msg : string)
| KeyError (key : value)
| IndexError (msg : string)
| Exception (msg : string).

(** Outcome of a Python call: a returned value or a raised exception. *)
Inductive result (R : Type) : Type :=
| Ok (r : R)
| Err (e : exn).
Arguments Ok {R} r.
Arguments Err {R} e.

(** [x is None] *)
Definition is_none (v : value) : bool :=
  match v with VNone => true | _ => false end.

(** ** Programs, handlers and traces *)

Inductive prog (E : Type -> Type) (R : Type) : Type :=
| Ret (r : result R)
| Vis {X : Type} (e : E X) (k : X -> prog E R).
Arguments Ret {E R} r.
Arguments Vis {E R X} e k.

Fixpoint bind {E A B} (p : prog E A) (f : A -> prog E B) : prog E B :=
  match p with
  | Ret (Ok a) => f a
  | Ret (Err e) => Ret (Err e)
  | Vis e k => Vis e (fun x => bind (k x) f)
  end.

Definition ret {E R} (r : R) : prog E R := Ret (Ok r).
Definition raise {E R} (e : exn) : prog E R := Ret (Err e).
Definition trigger {E X} (e : E X) : prog E X := Vis e (fun x => Ret (Ok x)).

Declare Scope prog_scope.
Delimit Scope prog_scope with prog.
Notation "x <- p ;; k" := (bind p (fun x => k))
  (at level 90, p at next level, right associativity) : prog_scope.
Notation "p ;;; k" := (bind p (fun _ => k))
  (at level 90, right associativity) : prog_scope.
Open Scope prog_scope.

(** A Python [for] loop whose body may [return]: the body answers
    [Some r] to leave the enclosing function with [r], [None] to go on
    with the next element. *)
Fixpoint for_each {E A R} (l : list A) (body : A -> prog E (option R))
  : prog E (option R) :=
  match l with
  | [] => ret None
  | a :: l' =>
      r <- body a ;;
      match r with
      | Some v => ret (Some v)
      | None => for_each l' body
      end
  end.

Definition handler (E : Type -> Type) (W : Type) : Type :=
  forall X, E X -> W -> X * W.

(** One step of a trace: the event and the answer it got. *)
Inductive entry (E : Type -> Type) : Type :=
| Entry {X : Type} (e : E X) (x : X).
Arguments Entry {E X} e x.

Fixpoint run {E W R} (h : handler E W) (p : prog E R) (w : W)
  : list (entry E) * result R * W :=
  match p with
  | Ret r => ([], r, w)
  | Vis e k =>
      let '(x, w1) := h _ e w in
      let '(tr, r, w2) := run h (k x) w1 in
      (Entry e x :: tr, r, w2)
  end.

(** Run [p] and hand its outcome, value or exception, to [k]: the
    caller of a function sees both. *)
Fixpoint bind_outcome {E A B} (p : prog E A) (k : result A -> prog E B)
  : prog E B :=
  match p with
  | Ret r => k r
  | Vis e c => Vis e (fun x => bind_outcome (c x) k)
  end.

(** ** rodario/decorators.py *)

Module Decorators.

(** Address of a [DecoratedMethod] object on the heap. *)
Definition loc := nat.

(** The callables the module handles.  [Function name] is a plain Python
    function or method whose [__name__] is [name]; its body is not part of
    this module and is answered by the environment.  [Decorated l] is the
    [DecoratedMethod] object at address [l].  The two closures created by
    one application of [singular] capture its argument [func]. *)
Inductive callable : Type :=
| Function (name : string)
| Decorated (l : loc)
| before_singular_of (func : callable)
| after_singular_of (func : callable).

Definition kwargs_t := list (string * value).

Record DecoratedMethod : Type := mkDecoratedMethod {
  _func : callable;
  _instance : value;
  decorations : gset string;
  before : list callable;
  after : list callable
}.

(** [DecoratedMethod.__init__]; an omitted argument is [None]. *)
Definition DecoratedMethod_init (func : callable)
    (decorations : option (list string))
    (before after : option (list callable)) : DecoratedMethod :=
  {| _func := func;
     _instance := VNone;
     decorations := match decorations with
                    | Some d => list_to_set d
                    | None => ∅
                    end;
     before := match before with Some b => b | None => [] end;
     after := match after with Some a => a | None => [] end |}.

(** Events of this module: a call of some callable, the clock, and the
    five redis commands the lock uses. *)
Inductive pyE : Type -> Type :=
| Call (callee : callable) (self : value) (args : list value)
       (kwargs : kwargs_t) : pyE (result value)
| time : pyE float
| setnx (r : conn) (name : string) (v : float) : pyE bool
| get (r : conn) (name : string) : pyE (option float)
| getset (r : conn) (name : string) (v : float) : pyE (option float)
| expire (r : conn) (name : string) (seconds : Z) : pyE bool
| delete (r : conn) (name : string) : pyE Z.

(** [callee(self, *args, **kwargs)]: an exception of the callee
    propagates. *)
Definition call (callee : callable) (self : value) (args : list value)
    (kwargs : kwargs_t) : prog pyE value :=
  Vis (Call callee self args kwargs) (fun r => Ret r).

(** [DecoratedMethod.__call__].  The hook lists are read from the
    object as it is when the call starts. *)
Definition __call__ (self : DecoratedMethod) (args : list value)
    (kwargs : kwargs_t) : prog pyE value :=
  vetoed <- for_each (before self) (fun callee =>
      result <- call callee (_instance self) args kwargs ;;
      ret (if is_none result then None else Some result)) ;;
  match vetoed with
  | Some result => ret result
  | None =>
      result <- call (_func self) (_instance self) args kwargs ;;
      overridden <- for_each (after self) (fun callee =>
          mutated <- call callee (_instance self) (result :: args) kwargs ;;
          ret (if is_none mutated then None else Some mutated)) ;;
      match overridden with
      | Some mutated => ret mutated
      | None => ret result
      end
  end.

(** [func.__name__]: a function has one, a [DecoratedMethod] object
    defines none. *)
Definition __name__ (func : callable) : result string :=
  match func with
  | Function name => Ok name
  | Decorated _ => Err (AttributeError "__name__")
  | before_singular_of _ => Ok "before_singular"
  | after_singular_of _ => Ok "after_singular"
  end.

(** [self._redis] *)
Definition _redis (self : value) : result conn :=
  match self with
  | VObject _ (Some r) => Ok r
  | _ => Err (AttributeError "_redis")
  end.

(** [float(x)] of a redis reply; an absent key is [None]. *)
Definition float_of_reply (x : option float) : result float :=
  match x with
  | Some f => Ok f
  | None => Err (TypeError "float() argument must be a string or a number")
  end.

(** An [int] operand of a float addition; exact for the small literals
    used here. *)
Definition float_of_int (n : Z) : float :=
  PrimFloat.of_uint63 (Uint63.of_Z n).

(** The two variables [singular] closes over. *)
Definition expiry : Z := 2.
Definition context : option string := None.

(** ['global.lock' if not context else context] *)
Definition lock_context : string :=
  match context with
  | None | Some EmptyString => "global.lock"
  | Some c => c
  end.

(** ['%s:%s' % (lock_context, func.__name__)] *)
Definition lock_name_of (func : callable) : prog pyE string :=
  name <- Ret (__name__ func) ;;
  ret (lock_context +:+ ":" +:+ name).

Definition before_singular (func : callable) (self : value)
    (args : list value) (kwargs : kwargs_t) : prog pyE value :=
  current <- trigger time ;;
  let lock_expires := (current + float_of_int expiry + float_of_int 1)%float in
  lock_name <- lock_name_of func ;;
  r <- Ret (_redis self) ;;
  locked <- trigger (setnx r lock_name lock_expires) ;;
  let acquired : prog pyE value :=
    (* we have the lock; give it a TTL and pass through *)
    r <- Ret (_redis self) ;;
    trigger (expire r lock_name expiry) ;;;
    ret VNone in
  if negb locked then
    r <- Ret (_redis self) ;;
    reply <- trigger (get r lock_name) ;;
    held <- Ret (float_of_reply reply) ;;
    if (current <? held)%float then ret (VBool false)
    else
      r <- Ret (_redis self) ;;
      reply <- trigger (getset r lock_name lock_expires) ;;
      previous <- Ret (float_of_reply reply) ;;
      if (current <? previous)%float then ret (VBool false)
      else acquired
  else acquired.

Definition after_singular (func : callable) (self : value) (result : value)
    (args : list value) (kwargs : kwargs_t) : prog pyE value :=
  lock_name <- lock_name_of func ;;
  r <- Ret (_redis self) ;;
  trigger (delete r lock_name) ;;;
  ret VNone.

(** *** The decorators

    [DecoratedMethod] objects are mutable and shared, so they live on a
    heap and a decorator is a heap transformer returning the object it
    hands back.  The answer is [None] only for a dangling address, which
    no Python program can produce. *)
Abbreviation heap := (gmap loc DecoratedMethod).

(** [DecoratedMethod(...)]: a new object at a fresh address. *)
Definition alloc (h : heap) (dm : DecoratedMethod) : callable * heap :=
  let l := fresh (dom h) in (Decorated l, <[l := dm]> h).

Definition blocking (func : callable) (h : heap) : option (callable * heap) :=
  match func with
  | Decorated l =>
      (* if it's already a DecoratedMethod, just add to it *)
      dm ← h !! l;
      Some (func,
            <[l := {| _func := _func dm;
                      _instance := _instance dm;
                      decorations := decorations dm ∪ {["blocking"]};
                      before := before dm;
                      after := after dm |}]> h)
  | _ =>
      Some (alloc h (DecoratedMethod_init func (Some ["blocking"]) None None))
  end.

Definition singular (func : callable) (h : heap) : option (callable * heap) :=
  match func with
  | Decorated l =>
      (* if it's already a DecoratedMethod, just add to it *)
      dm ← h !! l;
      Some (func,
            <[l := {| _func := _func dm;
                      _instance := _instance dm;
                      decorations := decorations dm ∪ {["singular"]};
                      before := before dm ++ [before_singular_of func];
                      after := after dm ++ [after_singular_of func] |}]> h)
  | _ =>
      Some (alloc h (DecoratedMethod_init func (Some ["singular"])
                       (Some [before_singular_of func])
                       (Some [after_singular_of func])))
  end.

(** [DecoratedMethod.__get__]: store the instance, return the object. *)
Definition __get__ (l : loc) (obj : value) (h : heap)
  : option (callable * heap) :=
  dm ← h !! l;
  Some (Decorated l,
        <[l := {| _func := _func dm;
                  _instance := obj;
                  decorations := decorations dm;
                  before := before dm;
                  after := after dm |}]> h).

(** *** Running the closures

    A call [callee(self, *args, **kwargs)] of one of the two closures of
    [singular] binds the arguments to the closure's parameters and runs
    its body.  [before_singular(self, *args, **kwargs)] takes whatever it
    is given.  [after_singular(self, result, *args, **kwargs)] has the
    parameter [result]: it is bound to the first positional argument after
    [self], and a keyword argument of that name then makes the call raise
    [TypeError] before the body runs; with no positional argument the
    keyword binds it, and with neither the call raises.  A keyword named
    [self] cannot arrive here: [DecoratedMethod.__call__], which makes
    these calls, has a parameter [self] of its own.  Every other callable
    is left to the environment. *)

(** [kwargs.get(name)] *)
Definition keyword (name : string) (kwargs : kwargs_t) : option value :=
  snd <$> List.find (fun kv => String.eqb (fst kv) name) kwargs.

(** [kwargs] without the key [name]. *)
Definition without_keyword (name : string) (kwargs : kwargs_t) : kwargs_t :=
  List.filter (fun kv => negb (String.eqb (fst kv) name)) kwargs.

Definition closure_body (callee : callable) (self : value)
    (args : list value) (kwargs : kwargs_t) : option (prog pyE value) :=
  match callee with
  | before_singular_of func => Some (before_singular func self args kwargs)
  | after_singular_of func =>
      match args, keyword "result" kwargs with
      | result :: args', None =>
          Some (after_singular func self result args' kwargs)
      | _ :: _, Some _ =>
          Some (raise (TypeError
            "after_singular() got multiple values for keyword argument 'result'"))
      | [], Some result =>
          Some (after_singular func self result []
                  (without_keyword "result" kwargs))
      | [], None =>
          Some (raise (TypeError "after_singular() takes at least 2 arguments"))
      end
  | _ => None
  end.


(** The same reading of the closures, with their commands left in the
    trace: a call of a closure is replaced by its body. *)
Fixpoint inline_closures {R} (p : prog pyE R) : prog pyE R :=
  match p with
  | Ret r => Ret r
  | Vis e k =>
      match e in pyE X return (X -> prog pyE R) -> prog pyE R with
      | Call callee self args kwargs => fun k' =>
          match closure_body callee self args kwargs with
          | Some body => bind_outcome body k'
          | None => Vis (Call callee self args kwargs) k'
          end
      | e' => fun k' => Vis e' k'
      end (fun x => inline_closures (k x))
  end.

(** A call [method(...)] through a reference [method] to a
    [DecoratedMethod]: the object is read from the heap when the call is
    made. *)
Definition call_through (method : callable) (h : heap) (args : list value)
    (kwargs : kwargs_t) : option (prog pyE value) :=
  match method with
  | Decorated l => dm ← h !! l; Some (__call__ dm args kwargs)
  | _ => None
  end.

(** *** A single-client coordination service

    Modelled from the spec: the redis server is not part of the
    repository; section 6 of the specification gives its contract
    (set-if-absent, get, get-and-set, delete, expire).  This world has one
    client, a clock that stands still during a call, and user functions
    given by [fn].  It serves to run the programs on concrete inputs; the
    statements about the hooks hold for every handler. *)
Record redis_world : Type := mkRedis {
  clock : float;
  keys : gmap string float;
  ttls : gmap string Z
}.

Definition redis_handler
    (fn : callable -> value -> list value -> kwargs_t -> result value)
  : handler pyE redis_world :=
  fun X e =>
    match e in pyE X return redis_world -> X * redis_world with
    | Call callee self args kwargs => fun w => (fn callee self args kwargs, w)
    | time => fun w => (clock w, w)
    | setnx _ name v => fun w =>
        match keys w !! name with
        | Some _ => (false, w)
        | None => (true, mkRedis (clock w) (<[name := v]> (keys w)) (ttls w))
        end
    | get _ name => fun w => (keys w !! name, w)
    | getset _ name v => fun w =>
        (keys w !! name, mkRedis (clock w) (<[name := v]> (keys w)) (ttls w))
    | expire _ name seconds => fun w =>
        match keys w !! name with
        | Some _ =>
            (true, mkRedis (clock w) (keys w) (<[name := seconds]> (ttls w)))
        | None => (false, w)
        end
    | delete _ name => fun w =>
        (match keys w !! name with Some _ => 1%Z | None => 0%Z end,
         mkRedis (clock w) (base.delete name (keys w))
                 (base.delete name (ttls w)))
    end.

End Decorators.

(** ** rodario/actors/proxy.py *)

Module Proxy.

(** Handle of a [multiprocessing.Queue] object. *)
Definition queue := nat.

(** The tuple pickled by [_proxy]; the byte encoding is not modelled. *)
Record request : Type := mkRequest {
  sender : string;
  slot : string;
  method_name : string;
  req_args : list value;
  req_kwargs : list (string * value)
}.

(** Events of this module.  [getitem], [setitem], [pop] and
    [new_response_queues] act on the dict [self._response_queues], which
    the calling thread and the listener thread share. *)
Inductive proxyE : Type -> Type :=
| uuid4 : proxyE string
| publish (channel : string) (message : request) : proxyE Z
| subscribe (channel : string) : proxyE unit
| start_thread : proxyE unit
| Queue : proxyE queue
| put (q : queue) (v : value) : proxyE unit
| queue_get (q : queue) : proxyE value
| new_response_queues : proxyE unit
| getitem (key : string) : proxyE (option queue)
| setitem (key : string) (q : queue) : proxyE unit
| pop (key : string) : proxyE unit.

(** The attributes of a proxy that do not change after construction. *)
Record ActorProxy : Type := mkActorProxy {
  proxyid : string;
  uuid : string;
  methods : list string
}.

(** [data[i]] *)
Definition index (data : value) (i : nat) : result value :=
  match data with
  | VList l =>
      match l !! i with
      | Some v => Ok v
      | None => Err (IndexError "index out of range")
      end
  | VStr s =>
      match String.get i s with
      | Some c => Ok (VStr (String c EmptyString))
      | None => Err (IndexError "string index out of range")
      end
  | _ => Err (TypeError "object is not subscriptable")
  end.

(** [self._response_queues[key]]; the keys of the dict are strings. *)
Definition response_queue (key : value) : prog proxyE queue :=
  match key with
  | VStr k =>
      r <- trigger (getitem k) ;;
      match r with
      | Some q => ret q
      | None => raise (KeyError key)
      end
  | VList _ => raise (TypeError "unhashable type")
  | _ => raise (KeyError key)
  end.

(** [self._response_queues.pop(key, None)] *)
Definition response_queue_pop (key : value) : prog proxyE unit :=
  match key with
  | VStr k => trigger (pop k)
  | VList _ => raise (TypeError "unhashable type")
  | _ => ret tt
  end.

(** [ActorProxy._handler]; [data] is [pickle.loads(message['data'])]. *)
Definition _handler (data : value) : prog proxyE unit :=
  queue <- Ret (index data 0) ;;
  q <- response_queue queue ;;
  v <- Ret (index data 1) ;;
  trigger (put q v) ;;;
  response_queue_pop queue.

(** [ActorProxy._proxy] *)
Definition _proxy (proxyid uuid : string) (method_name : string)
    (args : list value) (kwargs : list (string * value)) : prog proxyE queue :=
  (* create a unique response queue for retrieving the return value async *)
  queue <- trigger uuid4 ;;
  (* fire off the method call to the original Actor over pubsub *)
  count <- trigger (publish ("actor:" +:+ uuid)
                      (mkRequest proxyid queue method_name args kwargs)) ;;
  if (count =? 0)%Z then raise (Exception "No such actor")
  else
    q <- trigger Queue ;;
    trigger (setitem queue q) ;;;
    response_queue (VStr queue).

(** An [Actor] instance as the constructor sees it: its uuid and the
    names [inspect.getmembers(actor, predicate=inspect.ismethod)] lists. *)
Record Actor : Type := mkActor {
  actor_uuid : string;
  actor_methods : list string
}.

(** A constructor argument: omitted, an [Actor], a [str], or anything
    else. *)
Inductive argument : Type :=
| Omitted
| AnActor (a : Actor)
| AStr (s : string)
| Other (v : value).

(** [for name in pre_methods: methods.append((name, None,))] *)
Definition iterate (v : value) : result (list value) :=
  match v with
  | VList l => Ok l
  | VStr s => Ok (map (fun c => VStr (String c EmptyString)) (String.list_ascii_of_string s))
  | _ => Err (TypeError "object is not iterable")
  end.

(** The loop installing one proxy method per public name: a name
    starting with an underscore is skipped. *)
Fixpoint install (names : list value) (installed : list string)
  : result (list string) :=
  match names with
  | [] => Ok installed
  | name :: names' =>
      match index name 0 with
      | Err e => Err e
      | Ok first =>
          match first, name with
          | VStr "_", _ => install names' installed
          | _, VStr n => install names' (installed ++ [n])
          | _, _ => Err (TypeError "attribute name must be string")
          end
      end
  end.

(** [name[0] != '_'] for a non-empty name. *)
Definition public (name : string) : bool :=
  negb (String.prefix "_" name).

(** [ActorProxy.__init__] *)
Definition __init__ (actor uuid : argument) : prog proxyE ActorProxy :=
  proxyid <- trigger uuid4 ;;
  trigger new_response_queues ;;;
  trigger (subscribe ("proxy:" +:+ proxyid)) ;;;
  trigger start_thread ;;;
  match actor, uuid with
  | AnActor a, _ =>
      (* proxying an Actor directly *)
      names <- Ret (install (map VStr (actor_methods a)) []) ;;
      ret (mkActorProxy proxyid (actor_uuid a) names)
  | _, AStr u =>
      (* proxying by UUID; get actor methods over pubsub *)
      q <- _proxy proxyid u "_get_methods" [] [] ;;
      pre_methods <- trigger (queue_get q) ;;
      methods <- Ret (iterate pre_methods) ;;
      names <- Ret (install methods []) ;;
      ret (mkActorProxy proxyid u names)
  | _, _ => raise (Exception "No actor or UUID provided")
  end.

(** *** The state of one proxy

    The registry dict and the queues it holds, with the rest of the
    environment ([uuid4], redis, the thread) left to an oracle.  A
    [queue_get] on an empty queue blocks until the listener thread puts
    something, so the oracle answers it. *)
Record proxy_world (O : Type) : Type := mkWorld {
  _response_queues : gmap string queue;
  queues : gmap queue (list value);
  outside : O
}.
Arguments mkWorld {O} _ _ _.
Arguments _response_queues {O} _.
Arguments queues {O} _.
Arguments outside {O} _.

Definition ask {O} (oracle : handler proxyE O) {X} (e : proxyE X)
    (w : proxy_world O) : X * proxy_world O :=
  let '(x, o) := oracle _ e (outside w) in
  (x, mkWorld (_response_queues w) (queues w) o).

Definition proxy_handler {O} (oracle : handler proxyE O)
  : handler proxyE (proxy_world O) :=
  fun X e =>
    match e in proxyE X return proxy_world O -> X * proxy_world O with
    | Queue => fun w =>
        let q := fresh (dom (queues w)) in
        (q, mkWorld (_response_queues w) (<[q := []]> (queues w)) (outside w))
    | put q v => fun w =>
        (tt, mkWorld (_response_queues w)
               (<[q := default [] (queues w !! q) ++ [v]]> (queues w))
               (outside w))
    | queue_get q => fun w =>
        match queues w !! q with
        | Some (v :: vs) =>
            (v, mkWorld (_response_queues w) (<[q := vs]> (queues w))
                  (outside w))
        | _ => ask oracle (queue_get q) w
        end
    | new_response_queues => fun w =>
        (tt, mkWorld ∅ (queues w) (outside w))
    | getitem key => fun w => (_response_queues w !! key, w)
    | setitem key q => fun w =>
        (tt, mkWorld (<[key := q]> (_response_queues w)) (queues w)
               (outside w))
    | pop key => fun w =>
        (tt, mkWorld (base.delete key (_response_queues w)) (queues w)
               (outside w))
    | e' => ask oracle e'
    end.

End Proxy.

(** ** Vocabulary of the statements *)

Module Trace.
Import Decorators.

(** The trace entry of [callee(self, *args, **kwargs)] answering [x]. *)
Definition called (self : value) (args : list value) (kwargs : kwargs_t)
    (callee : callable) (x : result value) : entry pyE :=
  Entry (Call callee self args kwargs) x.

(** The hooks [hooks] called one after the other, each returning
    [None]. *)
Definition passed (self : value) (args : list value) (kwargs : kwargs_t)
    (hooks : list callable) : list (entry pyE) :=
  map (fun callee => called self args kwargs callee (Ok VNone)) hooks.

(** A before-hook ended the call: the hooks in front of it returned
    [None], it answered something else ([x] is a value other than [None]
    or an exception), and nothing was called after it. *)
Definition vetoed (self : DecoratedMethod) (args : list value)
    (kwargs : kwargs_t) (tr : list (entry pyE)) (res : result value) : Prop :=
  exists pre callee post x,
    before self = pre ++ callee :: post /\
    x <> Ok VNone /\
    tr = passed (_instance self) args kwargs pre
           ++ [called (_instance self) args kwargs callee x] /\
    res = x.

(** What one lock attempt of [before_singular] looks like from outside,
    in the words of section 4.3 of the specification: the commands sent
    on connection [r] for the method [name], their answers, and the value
    the hook returns. *)
Definition lock_attempt (r : conn) (name : string)
    (tr : list (entry pyE)) (res : result value) : Prop :=
  exists current,
    let lock_name := "global.lock:" +:+ name in
    let lock_expires := (current + 2 + 1)%float in
    (* set-if-absent succeeded *)
    (exists t, tr = [Entry time current;
                     Entry (setnx r lock_name lock_expires) true;
                     Entry (expire r lock_name 2) t] /\
               res = Ok VNone)
    (* the key exists and its value is still in the future *)
    \/ (exists held, tr = [Entry time current;
                           Entry (setnx r lock_name lock_expires) false;
                           Entry (get r lock_name) (Some held)] /\
                     (current <? held)%float = true /\
                     res = Ok (VBool false))
    (* expired, but the get-and-set returned a value in the future *)
    \/ (exists held previous,
          tr = [Entry time current;
                Entry (setnx r lock_name lock_expires) false;
                Entry (get r lock_name) (Some held);
                Entry (getset r lock_name lock_expires) (Some previous)] /\
          (current <? held)%float = false /\
          (current <? previous)%float = true /\
          res = Ok (VBool false))
    (* expired and taken over *)
    \/ (exists held previous t,
          tr = [Entry time current;
                Entry (setnx r lock_name lock_expires) false;
                Entry (get r lock_name) (Some held);
                Entry (getset r lock_name lock_expires) (Some previous);
                Entry (expire r lock_name 2) t] /\
          (current <? held)%float = false /\
          (current <? previous)%float = false /\
          res = Ok VNone)
    (* the key disappeared between two commands: [float(None)] *)
    \/ (exists e, res = Err e /\
          (tr = [Entry time current;
                 Entry (setnx r lock_name lock_expires) false;
                 Entry (get r lock_name) None]
           \/ exists held,
                (current <? held)%float = false /\
                tr = [Entry time current;
                      Entry (setnx r lock_name lock_expires) false;
                      Entry (get r lock_name) (Some held);
                      Entry (getset r lock_name lock_expires) None])).

(** A whole call of a method guarded by [singular] alone, with the
    commands of the two closures in the trace: a lock attempt; when it
    did not return [None] that is the end; otherwise the base method is
    called.  When it raises, that is the end and the lock key stays.
    When it returns, the release hook is called with its result: the
    lock key is deleted and the result returned, unless a keyword
    argument is named [result], in which case the call of the hook raises
    [TypeError] and nothing is deleted. *)
Definition guarded_call (r : conn) (name : string) (self : value)
    (args : list value) (kwargs : kwargs_t)
    (tr : list (entry pyE)) (res : result value) : Prop :=
  exists tr1 res1,
    lock_attempt r name tr1 res1 /\
    ((res1 <> Ok VNone /\ tr = tr1 /\ res = res1)
     \/ (res1 = Ok VNone /\
         ((exists e,
              tr = tr1 ++ [called self args kwargs (Function name) (Err e)] /\
              res = Err e)
          \/ (exists v n,
                keyword "result" kwargs = None /\
                tr = tr1 ++ [called self args kwargs (Function name) (Ok v);
                             Entry (delete r ("global.lock:" +:+ name)) n] /\
                res = Ok v)
          \/ (exists v x,
                keyword "result" kwargs = Some x /\
                tr = tr1 ++ [called self args kwargs (Function name) (Ok v)] /\
                res = Err (TypeError
                  "after_singular() got multiple values for keyword argument 'result'"))))).

End Trace.

(** ** Concrete inputs on which the statements are run *)

Module Demo.
Import Decorators.

(** User functions: ["refuse"] returns a string, ["replace"] returns 5,
    ["incr"] returns 1 and every other function returns [None]. *)
Definition fn (callee : callable) (self : value) (args : list value)
    (kwargs : kwargs_t) : result value :=
  match callee with
  | Function "refuse" => Ok (VStr "no")
  | Function "replace" => Ok (VInt 5)
  | Function "incr" => Ok (VInt 1)
  | _ => Ok VNone
  end.

(** An actor instance holding redis connection 0. *)
Definition actor : value := VObject 7 (Some 0).

(** The clock reads 100; the lock of [incr] expired at 50. *)
Definition stale : redis_world :=
  mkRedis 100 {["global.lock:incr" := 50%float]} ∅.

(** The lock of [incr] is held by somebody else until 103. *)
Definition held : redis_world :=
  mkRedis 100 {["global.lock:incr" := 103%float]} ∅.

Definition method (before after : list callable) : DecoratedMethod :=
  {| _func := Function "incr"; _instance := actor; decorations := ∅;
     before := before; after := after |}.

(** [incr] guarded by [singular] alone. *)
Definition guarded : DecoratedMethod :=
  method [before_singular_of (Function "incr")]
         [after_singular_of (Function "incr")].

(** A heap holding one method already decorated with [blocking], with
    one before-hook and one after-hook of its own. *)
Definition decorated_heap : gmap loc DecoratedMethod :=
  {[ 4 := {| _func := Function "incr"; _instance := VNone;
             decorations := {["blocking"]};
             before := [Function "quiet"]; after := [Function "mute"] |} ]}.

(** A call that names one of its arguments [result]. *)
Definition by_keyword : kwargs_t := [("result", VInt 9)].

(** A store shared with other clients, seen at the moment the lock key
    goes away between two commands (its TTL ran out, or its holder
    released it): the key is there for the set-if-absent and gone for the
    read that follows. *)
Definition vanishing : handler pyE unit :=
  fun X e =>
    match e in pyE X return unit -> X * unit with
    | Call callee self args kwargs => fun w => (fn callee self args kwargs, w)
    | time => fun w => (100%float, w)
    | setnx _ _ _ => fun w => (false, w)
    | get _ _ => fun w => (None, w)
    | getset _ _ _ => fun w => (None, w)
    | expire _ _ _ => fun w => (false, w)
    | delete _ _ => fun w => (0%Z, w)
    end.

End Demo.

(** ** Vocabulary and concrete inputs for the proxy *)

Module ProxyTrace.
Import Proxy.

(** Scanning a trace with the registry keys present so far: every
    [publish] carries a reply slot that is registered at that moment. *)
Fixpoint registered_when_published (registered : list string)
    (tr : list (entry proxyE)) : bool :=
  match tr with
  | [] => true
  | Entry e _ :: tr' =>
      match e with
      | publish _ message =>
          List.existsb (String.eqb (slot message)) registered
          && registered_when_published registered tr'
      | setitem key _ => registered_when_published (key :: registered) tr'
      | pop key =>
          registered_when_published
            (List.filter (fun k => negb (String.eqb k key)) registered) tr'
      | new_response_queues => registered_when_published [] tr'
      | _ => registered_when_published registered tr'
      end
  end.

(** What is outside one proxy: the strings [uuid4] will produce, the
    number of subscribers redis reports for a publish, and the value a
    blocked [get] eventually receives. *)
Record outside_world : Type := mkOutside {
  supply : list string;
  subscribers : Z;
  inbox : value
}.

Definition oracle : handler proxyE outside_world :=
  fun X e =>
    match e in proxyE X return outside_world -> X * outside_world with
    | uuid4 => fun o =>
        match supply o with
        | s :: rest => (s, mkOutside rest (subscribers o) (inbox o))
        | [] => (EmptyString, o)
        end
    | publish _ _ => fun o => (subscribers o, o)
    | subscribe _ => fun o => (tt, o)
    | start_thread => fun o => (tt, o)
    | Queue => fun o => (0, o)
    | put _ _ => fun o => (tt, o)
    | queue_get _ => fun o => (inbox o, o)
    | new_response_queues => fun o => (tt, o)
    | getitem _ => fun o => (None, o)
    | setitem _ _ => fun o => (tt, o)
    | pop _ => fun o => (tt, o)
    end.

(** A proxy with nothing pending, one actor listening. *)
Definition idle : proxy_world outside_world :=
  mkWorld ∅ ∅ (mkOutside ["p1"; "s1"; "s2"] 1 (VList [VStr "ping"; VStr "_stop"])).

(** The same with nobody listening. *)
Definition deserted : proxy_world outside_world :=
  mkWorld ∅ ∅ (mkOutside ["p1"; "s1"; "s2"] 0 VNone).

(** One call pending on slot ["s1"], waiting on queue 0. *)
Definition pending : proxy_world outside_world :=
  mkWorld {["s1" := 0]} {[0 := []]} (mkOutside ["s2"] 1 VNone).

Definition an_actor : Actor := mkActor "a1" ["_get_methods"; "ping"].

(** One proxy in a world where every publish finds no subscriber. *)
Definition unserved : handler proxyE (proxy_world outside_world) :=
  fun X e w =>
    proxy_handler oracle X e
      (mkWorld (_response_queues w) (queues w)
         (mkOutside (supply (outside w)) 0 (inbox (outside w)))).

(** The values received by the blocking [get] calls of a trace. *)
Fixpoint replies (tr : list (entry proxyE)) : list value :=
  match tr with
  | [] => []
  | Entry e x :: tr' =>
      match e in proxyE X return X -> list value with
      | queue_get _ => fun v => v :: replies tr'
      | _ => fun _ => replies tr'
      end x
  end.

End ProxyTrace.

(** ** Facts about programs *)

Lemma run_bind {E W A B} (h : handler E W) (p : prog E A)
    (f : A -> prog E B) (w : W) :
  run h (bind p f) w =
    let '(t1, r, w1) := run h p w in
    match r with
    | Ok a => let '(t2, r2, w2) := run h (f a) w1 in (t1 ++ t2, r2, w2)
    | Err e => (t1, Err e, w1)
    end.
Proof.
  revert w. induction p as [[a|e]|X e k IH]; intros w; simpl.
  - destruct (run h (f a) w) as [[t2 r2] w2]. reflexivity.
  - reflexivity.
  - destruct (h X e w) as [x w1]. rewrite IH.
    destruct (run h (k x) w1) as [[t1 [a|e']] w1']; [|reflexivity].
    destruct (run h (f a) w1') as [[t2 r2] w2]. reflexivity.
Qed.

(** ** Facts about rodario/decorators.py *)

Module DecoratorsFacts.
Import Decorators Trace.

Section Pipeline.
Context {W : Type} (h : handler pyE W).

(** The loop over a hook list either stops at the first hook that does
    not return [None], or calls them all. *)
Lemma run_hooks (self : value) (args : list value) (kwargs : kwargs_t)
    (hooks : list callable) (w : W) tr r w' :
  run h (for_each hooks (fun callee =>
           result <- call callee self args kwargs ;;
           ret (if is_none result then None else Some result))) w
    = (tr, r, w') ->
  (exists pre callee post x,
      hooks = pre ++ callee :: post /\ x <> Ok VNone /\
      tr = passed self args kwargs pre ++ [called self args kwargs callee x] /\
      r = match x with Ok v => Ok (Some v) | Err e => Err e end)
  \/ (tr = passed self args kwargs hooks /\ r = Ok None).
Proof.
  revert w tr r w'. induction hooks as [|c hooks IH]; intros w tr r w' H.
  - simpl in H. injection H as <- <- <-. right. split; reflexivity.
  - simpl in H. destruct (h _ (Call c self args kwargs) w) as [x w1].
    destruct x as [v|e]; simpl in H.
    + destruct (is_none v) eqn:Hv; simpl in H.
      * destruct (run h (for_each hooks _) w1) as [[tr1 r1] w2] eqn:Hrest.
        injection H as <- <- <-.
        destruct v; try discriminate Hv.
        destruct (IH _ _ _ _ Hrest)
          as [(pre & callee & post & x & -> & Hx & -> & ->)|[-> ->]].
        -- left. exists (c :: pre), callee, post, x. repeat split; auto.
        -- right. split; reflexivity.
      * injection H as <- <- <-. left.
        exists [], c, hooks, (Ok v). repeat split.
        intros [= ->]. discriminate Hv.
    + injection H as <- <- <-. left.
      exists [], c, hooks, (Err e). repeat split. discriminate.
Qed.

(** Every run of [__call__] has one of four shapes. *)
Lemma call_cases (self : DecoratedMethod) (args : list value)
    (kwargs : kwargs_t) (w : W) tr res w' :
  run h (__call__ self args kwargs) w = (tr, res, w') ->
  let inst := _instance self in
  vetoed self args kwargs tr res
  \/ (exists e,
        tr = passed inst args kwargs (before self)
               ++ [called inst args kwargs (_func self) (Err e)] /\
        res = Err e)
  \/ (exists v pre callee post y,
        after self = pre ++ callee :: post /\ y <> Ok VNone /\
        tr = passed inst args kwargs (before self)
               ++ called inst args kwargs (_func self) (Ok v)
               :: passed inst (v :: args) kwargs pre
               ++ [called inst (v :: args) kwargs callee y] /\
        res = y)
  \/ (exists v,
        tr = passed inst args kwargs (before self)
               ++ called inst args kwargs (_func self) (Ok v)
               :: passed inst (v :: args) kwargs (after self) /\
        res = Ok v).
Proof.
  intros H inst. unfold __call__ in H. rewrite run_bind in H.
  destruct (run h (for_each (before self) _) w) as [[t1 r1] w1] eqn:Hb.
  apply run_hooks in Hb.
  destruct Hb as [(pre & callee & post & x & Hpre & Hx & -> & ->)|[-> ->]].
  - left. exists pre, callee, post, x.
    destruct x as [v|e]; simpl in H; injection H as <- <- <-;
      rewrite ?app_nil_r; repeat split; auto.
  - right. rewrite run_bind in H. simpl in H.
    destruct (h _ (Call (_func self) (_instance self) args kwargs) w1)
      as [x w2].
    destruct x as [v|e]; simpl in H.
    + rewrite run_bind in H.
      destruct (run h (for_each (after self) _) w2) as [[t2 r2] w3] eqn:Ha.
      apply run_hooks in Ha.
      destruct Ha as [(pre & callee & post & y & Hpre & Hy & -> & ->)|[-> ->]].
      * right. left. exists v, pre, callee, post, y.
        destruct y as [m|e]; simpl in H; injection H as <- <- <-;
          rewrite ?app_nil_r; repeat split; auto.
      * right. right. exists v. simpl in H. injection H as <- <- <-.
        rewrite ?app_nil_r. split; reflexivity.
    + left. exists e. injection H as <- <- <-. split; reflexivity.
Qed.

End Pipeline.

(** C2.  In every run of [DecoratedMethod.__call__] the before-hooks are
    called in registration order with the stored instance and the
    original arguments.  Either one of them answers something other than
    [None]: then that answer is the overall result and the trace ends
    there, so no later before-hook, no base method and no after-hook is
    invoked.  Or all of them return [None]: then the base method is
    called with the original arguments right after them, and everything
    called afterwards is an after-hook call, which carries the base
    result as an extra leading argument. *)
Theorem call_runs_before_hooks_first {W} (h : handler pyE W)
    (self : DecoratedMethod) (args : list value) (kwargs : kwargs_t)
    (w : W) tr res w' :
  run h (__call__ self args kwargs) w = (tr, res, w') ->
  vetoed self args kwargs tr res
  \/ exists x rest,
       tr = passed (_instance self) args kwargs (before self)
              ++ called (_instance self) args kwargs (_func self) x :: rest /\
       Forall (fun en => exists callee v y,
                   callee ∈ after self /\
                   en = called (_instance self) (v :: args) kwargs callee y)
              rest.
Proof.
  intros H. apply call_cases in H. simpl in H.
  destruct H as [H|[(e & -> & ->)|[(v & pre & callee & post & y & Ha & Hy & -> & ->)
                                  |(v & -> & ->)]]].
  - left. exact H.
  - right. exists (Err e), []. split; [reflexivity|constructor].
  - right. exists (Ok v), (passed (_instance self) (v :: args) kwargs pre
                            ++ [called (_instance self) (v :: args) kwargs callee y]).
    split; [reflexivity|]. apply Forall_app. split.
    + apply Forall_map, Forall_forall. intros c Hc.
      exists c, v, (Ok VNone). split; [|reflexivity].
      rewrite Ha. apply elem_of_app. left. exact Hc.
    + constructor; [|constructor]. exists callee, v, y. split; [|reflexivity].
      rewrite Ha. apply elem_of_app. right. apply elem_of_cons. left. reflexivity.
  - right. exists (Ok v), (passed (_instance self) (v :: args) kwargs (after self)).
    split; [reflexivity|]. apply Forall_map, Forall_forall. intros c Hc.
    exists c, v, (Ok VNone). split; [exact Hc|reflexivity].
Qed.

Lemma call_runs_before_hooks_first_witness :
  let self := Demo.method [Function "quiet"; Function "refuse"; Function "late"]
                          [Function "replace"] in
  let tr := [called Demo.actor [VInt 3] [] (Function "quiet") (Ok VNone);
             called Demo.actor [VInt 3] [] (Function "refuse") (Ok (VStr "no"))] in
  run (redis_handler Demo.fn) (__call__ self [VInt 3] []) Demo.stale
    = (tr, Ok (VStr "no"), Demo.stale) /\
  (vetoed self [VInt 3] [] tr (Ok (VStr "no"))
   \/ exists x rest,
        tr = passed (_instance self) [VInt 3] [] (before self)
               ++ called (_instance self) [VInt 3] [] (_func self) x :: rest /\
        Forall (fun en => exists callee v y,
                    callee ∈ after self /\
                    en = called (_instance self) (v :: [VInt 3]) [] callee y)
               rest).
Proof.
  intros self tr. split; [reflexivity|].
  apply (call_runs_before_hooks_first (redis_handler Demo.fn) self [VInt 3] []
           Demo.stale tr (Ok (VStr "no")) Demo.stale).
  reflexivity.
Defined.

(** C3.  In a run of [DecoratedMethod.__call__] in which no before-hook
    vetoes, the base method's outcome decides: if it raises, the call
    raises.  If it returns [v], the after-hooks are called in
    registration order with the instance, [v] and the original arguments;
    the first of them to answer something other than [None] ends the
    call with that answer and the remaining after-hooks are not called;
    if all of them return [None], the result is [v]. *)
Theorem call_runs_after_hooks {W} (h : handler pyE W)
    (self : DecoratedMethod) (args : list value) (kwargs : kwargs_t)
    (w : W) tr res w' :
  run h (__call__ self args kwargs) w = (tr, res, w') ->
  ~ vetoed self args kwargs tr res ->
  let inst := _instance self in
  (exists e,
      tr = passed inst args kwargs (before self)
             ++ [called inst args kwargs (_func self) (Err e)] /\
      res = Err e)
  \/ (exists v pre callee post y,
        after self = pre ++ callee :: post /\ y <> Ok VNone /\
        tr = passed inst args kwargs (before self)
               ++ called inst args kwargs (_func self) (Ok v)
               :: passed inst (v :: args) kwargs pre
               ++ [called inst (v :: args) kwargs callee y] /\
        res = y)
  \/ (exists v,
        tr = passed inst args kwargs (before self)
               ++ called inst args kwargs (_func self) (Ok v)
               :: passed inst (v :: args) kwargs (after self) /\
        res = Ok v).
Proof.
  intros H Hv inst. apply call_cases in H.
  destruct H as [H|H]; [contradiction|exact H].
Qed.

Lemma call_runs_after_hooks_witness :
  let self := Demo.method [Function "quiet"]
                          [Function "mute"; Function "replace"; Function "late"] in
  let tr := [called Demo.actor [VInt 3] [] (Function "quiet") (Ok VNone);
             called Demo.actor [VInt 3] [] (Function "incr") (Ok (VInt 1));
             called Demo.actor [VInt 1; VInt 3] [] (Function "mute") (Ok VNone);
             called Demo.actor [VInt 1; VInt 3] [] (Function "replace")
                    (Ok (VInt 5))] in
  run (redis_handler Demo.fn) (__call__ self [VInt 3] []) Demo.stale
    = (tr, Ok (VInt 5), Demo.stale) /\
  exists v pre callee post y,
    after self = pre ++ callee :: post /\ y <> Ok VNone /\
    tr = passed Demo.actor [VInt 3] [] (before self)
           ++ called Demo.actor [VInt 3] [] (_func self) (Ok v)
           :: passed Demo.actor (v :: [VInt 3]) [] pre
           ++ [called Demo.actor (v :: [VInt 3]) [] callee y] /\
    Ok (VInt 5) = y.
Proof.
  intros self tr. split; [reflexivity|].
  assert (Hnv : ~ vetoed self [VInt 3] [] tr (Ok (VInt 5))).
  { intros (pre & callee & post & x & Hb & _ & Htr & _).
    destruct pre as [|c [|c' pre]]; simpl in Hb; try discriminate Hb.
    apply (f_equal (@length _)) in Htr. discriminate Htr. }
  destruct (call_runs_after_hooks (redis_handler Demo.fn) self [VInt 3] []
              Demo.stale tr (Ok (VInt 5)) Demo.stale eq_refl Hnv)
    as [(e & _ & He)|[H|(v & Htr & _)]].
  - discriminate He.
  - exact H.
  - apply (f_equal (@length _)) in Htr. discriminate Htr.
Defined.

(** The lock attempt.  An invocation of the singular before-hook for a
    wrapped function that has the name [name], on a receiver whose
    [_redis] is the client [r], is one of the runs of [lock_attempt]: the
    key is ["global.lock:" ++ name], the expiry is [current + 2 + 1], a
    set-if-absent is tried first; when the key exists its value is read
    and the hook returns [False] if [current] is before it, otherwise a
    get-and-set writes the new expiry and the hook returns [False] when
    the previous value is still in the future; on both ways of acquiring
    the lock a TTL of 2 seconds is set and the hook returns [None]; and
    when the read or the get-and-set finds the key gone the hook raises
    (last case of [lock_attempt]). *)
Theorem before_singular_is_lock_attempt {W} (h : handler pyE W)
    (func : callable) (name : string) (self : value) (r : conn)
    (args : list value) (kwargs : kwargs_t) (w : W) tr res w' :
  __name__ func = Ok name ->
  _redis self = Ok r ->
  run h (before_singular func self args kwargs) w = (tr, res, w') ->
  lock_attempt r name tr res.
Proof.
  intros Hname Hredis H. unfold before_singular, lock_name_of in H.
  rewrite Hname, Hredis in H. simpl in H.
  destruct (h _ time w) as [current w1]. exists current. simpl.
  destruct (h _ (setnx _ _ _) w1) as [[|] w2]; simpl in H.
  - destruct (h _ (expire _ _ _) w2) as [t w3]. injection H as <- <- <-.
    left. exists t. split; reflexivity.
  - right. destruct (h _ (get _ _) w2) as [[held|] w3]; simpl in H.
    + destruct (current <? held)%float eqn:Hheld; simpl in H.
      * injection H as <- <- <-. left. exists held. repeat split; assumption.
      * right.
        destruct (h _ (getset _ _ _) w3) as [[previous|] w4]; simpl in H.
        -- destruct (current <? previous)%float eqn:Hprev; simpl in H.
           ++ injection H as <- <- <-. left. exists held, previous.
              repeat split; assumption.
           ++ destruct (h _ (expire _ _ _) w4) as [t w5].
              injection H as <- <- <-. right. left. exists held, previous, t.
              repeat split; assumption.
        -- injection H as <- <- <-. right. right. eexists. split; [reflexivity|].
           right. exists held. split; [assumption|reflexivity].
    + injection H as <- <- <-. right. right. right. eexists.
      split; [reflexivity|]. left. reflexivity.
Qed.

Lemma before_singular_is_lock_attempt_witness :
  let tr := [Entry time 100%float;
             Entry (setnx 0 "global.lock:incr" 103%float) false;
             Entry (get 0 "global.lock:incr") (Some 50%float);
             Entry (getset 0 "global.lock:incr" 103%float) (Some 50%float);
             Entry (expire 0 "global.lock:incr" 2) true] in
  (__name__ (Function "incr") = Ok "incr" /\
   _redis Demo.actor = Ok 0 /\
   (run (redis_handler Demo.fn)
        (before_singular (Function "incr") Demo.actor [] []) Demo.stale).1
     = (tr, Ok VNone)) /\
  lock_attempt 0 "incr" tr (Ok VNone).
Proof.
  intros tr. split; [repeat split; reflexivity|].
  apply (before_singular_is_lock_attempt (redis_handler Demo.fn)
           (Function "incr") "incr" Demo.actor 0 [] [] Demo.stale tr (Ok VNone)
           (mkRedis 100 {["global.lock:incr" := 103%float]}
                    {["global.lock:incr" := 2%Z]}));
    [reflexivity|reflexivity|].
  vm_compute. reflexivity.
Defined.

(** While the lock is held by somebody else the attempt is vetoed and the
    store is left as it was. *)
Example before_singular_held :
  run (redis_handler Demo.fn)
      (before_singular (Function "incr") Demo.actor [] []) Demo.held
  = ([Entry time 100%float;
      Entry (setnx 0 "global.lock:incr" 103%float) false;
      Entry (get 0 "global.lock:incr") (Some 103%float)],
     Ok (VBool false), Demo.held).
Proof. reflexivity. Qed.

(** The closures made by [singular] for an object that is already a
    [DecoratedMethod] look up [__name__] on that object and raise. *)
Remark before_singular_of_decorated {W} (h : handler pyE W) (l : loc)
    (self : value) (args : list value) (kwargs : kwargs_t) (w : W) :
  exists current w',
    run h (before_singular (Decorated l) self args kwargs) w
    = ([Entry time current], Err (AttributeError "__name__"), w').
Proof.
  simpl. destruct (h _ time w) as [current w1].
  exists current, w1. reflexivity.
Qed.

(** C1.  The singular before-hook on the two inputs where it does none
    of what the claim describes.  First, the hook that [singular] makes
    for a method that is already a [DecoratedMethod] (the branch "if it's
    already a DecoratedMethod, just add to it"): whatever the receiver,
    the arguments, redis and the clock, every invocation reads the clock
    and raises [AttributeError] on [func.__name__]; no lock key is
    computed, no command is sent, and neither [False] nor [None] is
    returned.  Second, the hook for the function [incr] on a receiver
    with a client, when the key exists for the set-if-absent and is gone
    for the read: [float(None)] raises [TypeError] where the claim has
    the hook return [False] or go on to the get-and-set. *)
Theorem before_singular_raises {W} (h : handler pyE W) (l : loc)
    (self : value) (args : list value) (kwargs : kwargs_t) (w : W) :
  (exists current w',
      run h (before_singular (Decorated l) self args kwargs) w
      = ([Entry time current], Err (AttributeError "__name__"), w'))
  /\ _redis Demo.actor = Ok 0
  /\ run Demo.vanishing
         (before_singular (Function "incr") Demo.actor [] []) tt
     = ([Entry time 100%float;
         Entry (setnx 0 "global.lock:incr" 103%float) false;
         Entry (get 0 "global.lock:incr") None],
        Err (TypeError "float() argument must be a string or a number"), tt).
Proof.
  split; [|split; [reflexivity|vm_compute; reflexivity]].
  simpl. destruct (h _ time w) as [current w1].
  exists current, w1. reflexivity.
Qed.

(** C7.  The singular after-hook sends exactly one command, the deletion
    of the lock key: it reads nothing, so no stored value is compared
    with anything before the delete.  On the single-client store the key
    is gone afterwards whatever value it held, that is, whoever holds the
    lock. *)
Theorem after_singular_deletes_unconditionally {W} (h : handler pyE W)
    (func : callable) (name : string) (self : value) (r : conn)
    (result : value) (args : list value) (kwargs : kwargs_t) (w : W) :
  __name__ func = Ok name ->
  _redis self = Ok r ->
  (exists n w',
      run h (after_singular func self result args kwargs) w
      = ([Entry (delete r ("global.lock:" +:+ name)) n], Ok VNone, w'))
  /\ forall fn (store : redis_world),
       keys (run (redis_handler fn)
                 (after_singular func self result args kwargs) store).2
         !! ("global.lock:" +:+ name) = None.
Proof.
  intros Hname Hredis. unfold after_singular, lock_name_of.
  rewrite Hname, Hredis. simpl. split.
  - destruct (h _ (delete _ _) w) as [n w1]. exists n, w1. reflexivity.
  - intros fn store. simpl. apply lookup_delete_eq.
Qed.

Lemma after_singular_deletes_unconditionally_witness :
  (__name__ (Function "incr") = Ok "incr" /\ _redis Demo.actor = Ok 0) /\
  (exists n w',
      run (redis_handler Demo.fn)
          (after_singular (Function "incr") Demo.actor (VInt 1) [] [])
          Demo.held
      = ([Entry (delete 0 "global.lock:incr") n], Ok VNone, w'))
  /\ forall fn (store : redis_world),
       keys (run (redis_handler fn)
                 (after_singular (Function "incr") Demo.actor (VInt 1) [] [])
                 store).2
         !! "global.lock:incr" = None.
Proof.
  split; [split; reflexivity|].
  apply (after_singular_deletes_unconditionally (redis_handler Demo.fn)
           (Function "incr") "incr" Demo.actor 0 (VInt 1) [] [] Demo.held);
    reflexivity.
Defined.

(** A caller releasing at time 100 deletes a lock that some other caller
    holds until 103. *)
Example after_singular_deletes_foreign_lock :
  run (redis_handler Demo.fn)
      (after_singular (Function "incr") Demo.actor (VInt 1) [] []) Demo.held
  = ([Entry (delete 0 "global.lock:incr") 1%Z], Ok VNone, mkRedis 100 ∅ ∅).
Proof. vm_compute. reflexivity. Qed.






(** C6.  Applying [blocking] or [singular] to an object that already is a
    [DecoratedMethod] returns that same object and allocates nothing: the
    heap has the same addresses and every other object is untouched.  In
    the object the tag is added to the existing decoration set; [blocking]
    leaves both hook lists alone, [singular] appends its acquire hook at
    the end of the before-list and its release hook at the end of the
    after-list, so hooks are ordered by the order of application. *)
Theorem decorating_decorated_mutates (h : heap) (l : loc)
    (dm : DecoratedMethod) :
  h !! l = Some dm ->
  (exists h' dm',
      blocking (Decorated l) h = Some (Decorated l, h') /\
      dom h' = dom h /\
      (forall l', l' <> l -> h' !! l' = h !! l') /\
      h' !! l = Some dm' /\
      decorations dm' = decorations dm ∪ {["blocking"]} /\
      before dm' = before dm /\
      after dm' = after dm /\
      _func dm' = _func dm /\ _instance dm' = _instance dm)
  /\ (exists h' dm',
      singular (Decorated l) h = Some (Decorated l, h') /\
      dom h' = dom h /\
      (forall l', l' <> l -> h' !! l' = h !! l') /\
      h' !! l = Some dm' /\
      decorations dm' = decorations dm ∪ {["singular"]} /\
      before dm' = before dm ++ [before_singular_of (Decorated l)] /\
      after dm' = after dm ++ [after_singular_of (Decorated l)] /\
      _func dm' = _func dm /\ _instance dm' = _instance dm).
Proof.
  intros Hl. split.
  - unfold blocking. rewrite Hl. simpl. eexists _, _.
    split; [reflexivity|]. split; [|split; [|split]].
    + apply dom_insert_lookup_L. rewrite Hl. eauto.
    + intros l' Hne. apply lookup_insert_ne. congruence.
    + apply lookup_insert_eq.
    + repeat split.
  - unfold singular. rewrite Hl. simpl. eexists _, _.
    split; [reflexivity|]. split; [|split; [|split]].
    + apply dom_insert_lookup_L. rewrite Hl. eauto.
    + intros l' Hne. apply lookup_insert_ne. congruence.
    + apply lookup_insert_eq.
    + repeat split.
Qed.

Lemma decorating_decorated_mutates_witness :
  Demo.decorated_heap !! 4 =
    Some {| _func := Function "incr"; _instance := VNone;
            decorations := {["blocking"]};
            before := [Function "quiet"]; after := [Function "mute"] |} /\
  exists h' dm',
    singular (Decorated 4) Demo.decorated_heap = Some (Decorated 4, h') /\
    dom h' = dom Demo.decorated_heap /\
    (forall l', l' <> 4 -> h' !! l' = Demo.decorated_heap !! l') /\
    h' !! 4 = Some dm' /\
    decorations dm' = {["blocking"]} ∪ {["singular"]} /\
    before dm' = [Function "quiet"] ++ [before_singular_of (Decorated 4)] /\
    after dm' = [Function "mute"] ++ [after_singular_of (Decorated 4)] /\
    _func dm' = Function "incr" /\ _instance dm' = VNone.
Proof.
  split; [reflexivity|].
  exact (proj2 (decorating_decorated_mutates Demo.decorated_heap 4 _ eq_refl)).
Defined.

(** By contrast a plain function is wrapped in a new object, at an
    address the heap did not have. *)
Remark decorating_function_allocates (h : heap) (name : string) :
  exists l dm,
    singular (Function name) h = Some (Decorated l, <[l := dm]> h) /\
    h !! l = None /\
    decorations dm = {["singular"]} /\
    before dm = [before_singular_of (Function name)] /\
    after dm = [after_singular_of (Function name)] /\
    _func dm = Function name.
Proof.
  eexists _, _. split; [reflexivity|]. split.
  - apply not_elem_of_dom, is_fresh.
  - simpl. repeat split.
Qed.

End DecoratorsFacts.

(** ** Facts about rodario/actors/proxy.py *)

Module ProxyFacts.
Import Proxy ProxyTrace.

(** Every run of [_proxy], whatever the environment answers: the slot is
    drawn, the request is published, and only a non-zero subscriber count
    lets the call go on to create the queue and register it. *)
Lemma proxy_cases {W} (h : handler proxyE W) (pid u m : string)
    (args : list value) (kwargs : list (string * value)) (w : W) tr res w' :
  run h (_proxy pid u m args kwargs) w = (tr, res, w') ->
  exists queue count,
    let request :=
      Entry (publish ("actor:" +:+ u) (mkRequest pid queue m args kwargs))
            count in
    (count = 0%Z /\
     tr = [Entry uuid4 queue; request] /\
     res = Err (Exception "No such actor"))
    \/ (count <> 0%Z /\
        exists q found,
          tr = [Entry uuid4 queue; request; Entry Queue q;
                Entry (setitem queue q) tt; Entry (getitem queue) found] /\
          res = match found with
                | Some q' => Ok q'
                | None => Err (KeyError (VStr queue))
                end).
Proof.
  intros H. unfold _proxy in H. simpl in H.
  destruct (h _ uuid4 w) as [queue w1].
  destruct (h _ (publish _ _) w1) as [count w2].
  exists queue, count. simpl.
  destruct (Z.eqb_spec count 0) as [->|Hne]; simpl in H.
  - injection H as <- <- <-. left. repeat split.
  - right. split; [exact Hne|].
    destruct (h _ Queue w2) as [q w3].
    destruct (h _ (setitem _ _) w3) as [[] w4].
    destruct (h _ (getitem _) w4) as [found w5].
    exists q, found. destruct found; injection H as <- <- <-; split; reflexivity.
Qed.

(** C5.  When the publish of [_proxy] reports zero subscribers, the call
    raises the no-such-actor error at once: the trace ends with the
    publish, and the registry and the queues of the proxy are exactly what
    they were before the call. *)
Theorem proxy_no_such_actor {O} (env : handler proxyE O)
    (w : proxy_world O) (pid u m : string) (args : list value)
    (kwargs : list (string * value)) (queue : string) (o1 o2 : O) :
  env _ uuid4 (outside w) = (queue, o1) ->
  env _ (publish ("actor:" +:+ u) (mkRequest pid queue m args kwargs)) o1
    = (0%Z, o2) ->
  run (proxy_handler env) (_proxy pid u m args kwargs) w
  = ([Entry uuid4 queue;
      Entry (publish ("actor:" +:+ u) (mkRequest pid queue m args kwargs)) 0%Z],
     Err (Exception "No such actor"),
     mkWorld (_response_queues w) (queues w) o2).
Proof.
  intros Hu Hp. unfold _proxy. simpl. unfold ask. rewrite Hu. simpl.
  rewrite Hp. reflexivity.
Qed.

Lemma proxy_no_such_actor_witness :
  (oracle _ uuid4 (outside deserted)
     = ("p1", mkOutside ["s1"; "s2"] 0 VNone) /\
   oracle _ (publish "actor:a1" (mkRequest "me" "p1" "ping" [VInt 1] []))
          (mkOutside ["s1"; "s2"] 0 VNone)
     = (0%Z, mkOutside ["s1"; "s2"] 0 VNone)) /\
  run (proxy_handler oracle) (_proxy "me" "a1" "ping" [VInt 1] []) deserted
  = ([Entry uuid4 "p1";
      Entry (publish "actor:a1" (mkRequest "me" "p1" "ping" [VInt 1] [])) 0%Z],
     Err (Exception "No such actor"),
     mkWorld ∅ ∅ (mkOutside ["s1"; "s2"] 0 VNone)).
Proof.
  split; [split; reflexivity|].
  apply (proxy_no_such_actor oracle deserted "me" "a1" "ping" [VInt 1] []
           "p1" (mkOutside ["s1"; "s2"] 0 VNone)
           (mkOutside ["s1"; "s2"] 0 VNone));
    reflexivity.
Defined.

(** C9, as the code has it.  In every run of [_proxy] the reply slot id
    is drawn before the request is published, but the slot is registered
    with a new queue only after the publish, and only when the publish
    reported at least one subscriber. *)
Theorem proxy_registers_after_publish {W} (h : handler proxyE W)
    (pid u m : string) (args : list value) (kwargs : list (string * value))
    (w : W) tr res w' :
  run h (_proxy pid u m args kwargs) w = (tr, res, w') ->
  exists queue count rest,
    tr = Entry uuid4 queue
         :: Entry (publish ("actor:" +:+ u)
                     (mkRequest pid queue m args kwargs)) count
         :: rest /\
    (count = 0%Z -> rest = []) /\
    (count <> 0%Z ->
     exists q found,
       rest = [Entry Queue q; Entry (setitem queue q) tt;
               Entry (getitem queue) found]).
Proof.
  intros H. apply proxy_cases in H.
  destruct H as (queue & count & [(-> & -> & _)|(Hne & q & found & -> & _)]).
  - exists queue, 0%Z, []. split; [reflexivity|]. split; [reflexivity|].
    intros Hc. contradiction.
  - exists queue, count, [Entry Queue q; Entry (setitem queue q) tt;
                          Entry (getitem queue) found].
    split; [reflexivity|]. split; [intros Hc; contradiction|].
    intros _. exists q, found. reflexivity.
Qed.

Lemma proxy_registers_after_publish_witness :
  let tr := [Entry uuid4 "p1";
             Entry (publish "actor:a1" (mkRequest "me" "p1" "ping" [] [])) 1%Z;
             Entry Queue 0; Entry (setitem "p1" 0) tt;
             Entry (getitem "p1") (Some 0)] in
  (run (proxy_handler oracle) (_proxy "me" "a1" "ping" [] []) idle).1
    = (tr, Ok 0) /\
  exists queue count rest,
    tr = Entry uuid4 queue
         :: Entry (publish "actor:a1" (mkRequest "me" queue "ping" [] [])) count
         :: rest /\
    (count = 0%Z -> rest = []) /\
    (count <> 0%Z ->
     exists q found,
       rest = [Entry Queue q; Entry (setitem queue q) tt;
               Entry (getitem queue) found]).
Proof.
  intros tr. split; [vm_compute; reflexivity|].
  apply (proxy_registers_after_publish (proxy_handler oracle) "me" "a1" "ping"
           [] [] idle tr (Ok 0)
           (run (proxy_handler oracle) (_proxy "me" "a1" "ping" [] []) idle).2).
  vm_compute. reflexivity.
Defined.

(** C9 as stated fails: in this successful call nothing is registered
    when the request is published. *)
Lemma proxy_publishes_unregistered_slot :
  let tr := (run (proxy_handler oracle)
                 (_proxy "me" "a1" "ping" [] []) idle).1.1 in
  tr = [Entry uuid4 "p1";
        Entry (publish "actor:a1" (mkRequest "me" "p1" "ping" [] [])) 1%Z;
        Entry Queue 0; Entry (setitem "p1" 0) tt;
        Entry (getitem "p1") (Some 0)]
  /\ registered_when_published [] tr = false.
Proof. split; vm_compute; reflexivity. Qed.

(** A response for a pending slot: its value is put on the queue of the
    slot as it came, and the entry is removed afterwards. *)
Lemma handler_delivers_pending {O} (env : handler proxyE O)
    (w : proxy_world O) (key : string) (q : queue) (v : value) :
  _response_queues w !! key = Some q ->
  run (proxy_handler env) (_handler (VList [VStr key; v])) w
  = ([Entry (getitem key) (Some q); Entry (put q v) tt; Entry (pop key) tt],
     Ok tt,
     mkWorld (base.delete key (_response_queues w))
             (<[q := default [] (queues w !! q) ++ [v]]> (queues w))
             (outside w)).
Proof. intros Hk. unfold _handler. simpl. rewrite Hk. reflexivity. Qed.

(** A response for a slot the registry does not hold: the subscript
    [self._response_queues[queue]] raises [KeyError]; nothing is put on
    any queue and the world is unchanged. *)
Lemma handler_unknown_slot_raises {O} (env : handler proxyE O)
    (w : proxy_world O) (key : string) (v : value) :
  _response_queues w !! key = None ->
  run (proxy_handler env) (_handler (VList [VStr key; v])) w
  = ([Entry (getitem key) None], Err (KeyError (VStr key)), w).
Proof. intros Hk. unfold _handler. simpl. rewrite Hk. reflexivity. Qed.

(** C4.  The code at the input on which it departs from the claim: the
    first response for the pending slot ["s1"] is delivered to queue 0
    and the entry is removed; a second response for the same slot is not
    dropped silently but raises [KeyError] out of [_handler] (nothing is
    delivered and the registry stays empty). *)
Theorem handler_second_response_raises :
  let response := VList [VStr "s1"; VStr "pong"] in
  let after_first :=
    mkWorld ∅ {[0 := [VStr "pong"]]} (mkOutside ["s2"] 1 VNone) in
  run (proxy_handler oracle) (_handler response) pending
  = ([Entry (getitem "s1") (Some 0); Entry (put 0 (VStr "pong")) tt;
      Entry (pop "s1") tt],
     Ok tt, after_first)
  /\ run (proxy_handler oracle) (_handler response) after_first
     = ([Entry (getitem "s1") None], Err (KeyError (VStr "s1")), after_first).
Proof. split; vm_compute; reflexivity. Qed.

(** Constructed with neither an actor nor a string uuid, the proxy
    raises, after it has subscribed and started its listener thread. *)
Lemma init_with_neither_raises {W} (h : handler proxyE W) (w : W)
    (actor uuid : argument) :
  (forall a, actor <> AnActor a) ->
  (forall s, uuid <> AStr s) ->
  exists pid w',
    run h (__init__ actor uuid) w
    = ([Entry uuid4 pid; Entry new_response_queues tt;
        Entry (subscribe ("proxy:" +:+ pid)) tt; Entry start_thread tt],
       Err (Exception "No actor or UUID provided"), w').
Proof.
  intros Ha Hu. unfold __init__. simpl.
  destruct (h _ uuid4 w) as [pid w1].
  destruct (h _ new_response_queues w1) as [[] w2].
  destruct (h _ (subscribe _) w2) as [[] w3].
  destruct (h _ start_thread w3) as [[] w4].
  exists pid, w4.
  destruct actor as [|a|s|v]; try (exfalso; eapply Ha; reflexivity);
    destruct uuid as [|a'|s'|v']; try (exfalso; eapply Hu; reflexivity);
    reflexivity.
Qed.

(** C8.  The code at the input on which it departs from the claim:
    constructed with both an actor and a uuid, the proxy raises no
    configuration error.  The [isinstance(actor, Actor)] branch is taken,
    the uuid argument is never looked at, and the result is the proxy of
    the actor. *)
Theorem init_with_both_proxies_actor {W} (h : handler proxyE W) (w : W)
    (a : Actor) (u : string) :
  exists pid w',
    run h (__init__ (AnActor a) (AStr u)) w
    = ([Entry uuid4 pid; Entry new_response_queues tt;
        Entry (subscribe ("proxy:" +:+ pid)) tt; Entry start_thread tt],
       match install (map VStr (actor_methods a)) [] with
       | Ok names => Ok (mkActorProxy pid (actor_uuid a) names)
       | Err e => Err e
       end, w')
    /\ run h (__init__ (AnActor a) (AStr u)) w
       = run h (__init__ (AnActor a) Omitted) w.
Proof.
  unfold __init__. simpl.
  destruct (h _ uuid4 w) as [pid w1].
  destruct (h _ new_response_queues w1) as [[] w2].
  destruct (h _ (subscribe _) w2) as [[] w3].
  destruct (h _ start_thread w3) as [[] w4].
  exists pid, w4. split; [|reflexivity].
  destruct (install (map VStr (actor_methods a)) []); reflexivity.
Qed.

Example init_with_both :
  (run (proxy_handler oracle) (__init__ (AnActor an_actor) (AStr "b2")) idle).1
  = ([Entry uuid4 "p1"; Entry new_response_queues tt;
      Entry (subscribe "proxy:p1") tt; Entry start_thread tt],
     Ok (mkActorProxy "p1" "a1" ["ping"])).
Proof. vm_compute. reflexivity. Qed.

(** Attaching by uuid asks the actor for its methods and installs the
    public ones. *)
Example init_by_uuid :
  (run (proxy_handler oracle) (__init__ Omitted (AStr "a1")) idle).1
  = ([Entry uuid4 "p1"; Entry new_response_queues tt;
      Entry (subscribe "proxy:p1") tt; Entry start_thread tt;
      Entry uuid4 "s1";
      Entry (publish "actor:a1" (mkRequest "p1" "s1" "_get_methods" [] [])) 1%Z;
      Entry Queue 0; Entry (setitem "s1" 0) tt;
      Entry (getitem "s1") (Some 0);
      Entry (queue_get 0) (VList [VStr "ping"; VStr "_stop"])],
     Ok (mkActorProxy "p1" "a1" ["ping"])).
Proof. vm_compute. reflexivity. Qed.

End ProxyFacts.

(** ** Further facts about rodario/decorators.py *)

Module DecoratorsMore.
Import Decorators Trace.

Lemma run_bind_outcome {E W A B} (h : handler E W) (p : prog E A)
    (k : result A -> prog E B) (w : W) :
  run h (bind_outcome p k) w =
    let '(t1, r, w1) := run h p w in
    let '(t2, r2, w2) := run h (k r) w1 in
    (t1 ++ t2, r2, w2).
Proof.
  revert w. induction p as [r|X e c IH]; intros w; simpl.
  - destruct (run h (k r) w) as [[t2 r2] w2]. reflexivity.
  - destruct (h X e w) as [x w1]. rewrite IH.
    destruct (run h (c x) w1) as [[t1 r] w1'].
    destruct (run h (k r) w1') as [[t2 r2] w2]. reflexivity.
Qed.

(** The object a decorator makes out of a plain function, once an
    instance has been bound to it. *)
Lemma bound_new_method (decorate : callable -> heap -> option (callable * heap))
    (tags : list string) (hooks_before hooks_after : list callable)
    (func : callable) (h0 h1 h2 : heap) (l : loc) (obj : value)
    (c : callable) (args : list value) (kwargs : kwargs_t)
    (p : prog pyE value) :
  decorate func h0
    = Some (alloc h0 (DecoratedMethod_init func (Some tags)
                        (Some hooks_before) (Some hooks_after))) ->
  decorate func h0 = Some (Decorated l, h1) ->
  __get__ l obj h1 = Some (c, h2) ->
  call_through c h2 args kwargs = Some p ->
  p = __call__ {| _func := func; _instance := obj;
                  decorations := list_to_set tags;
                  before := hooks_before; after := hooks_after |}
               args kwargs.
Proof.
  intros Hd H1 H2 H3. rewrite Hd in H1. unfold alloc in H1.
  injection H1 as <- <-.
  unfold __get__ in H2. rewrite lookup_insert_eq in H2. simpl in H2.
  injection H2 as <- <-.
  unfold call_through in H3. rewrite lookup_insert_eq in H3. simpl in H3.
  injection H3 as <-. reflexivity.
Qed.

(** X1.  A plain function decorated with [blocking] alone is called like
    the function itself: the only thing a call does is call the function
    with the bound instance and the arguments, and its outcome is the
    outcome of the call. *)
Theorem blocking_call_is_base_call {W} (h : handler pyE W) (h0 h1 h2 : heap)
    (name : string) (l : loc) (obj : value) (c : callable)
    (args : list value) (kwargs : kwargs_t) (p : prog pyE value) (w : W) :
  blocking (Function name) h0 = Some (Decorated l, h1) ->
  __get__ l obj h1 = Some (c, h2) ->
  call_through c h2 args kwargs = Some p ->
  run h p w =
    let '(x, w') := h _ (Call (Function name) obj args kwargs) w in
    ([called obj args kwargs (Function name) x], x, w').
Proof.
  intros H1 H2 H3.
  rewrite (bound_new_method blocking ["blocking"] [] [] (Function name)
             h0 h1 h2 l obj c args kwargs p eq_refl H1 H2 H3).
  unfold __call__. simpl.
  destruct (h _ (Call (Function name) obj args kwargs) w) as [[v|e] w'];
    reflexivity.
Qed.

Lemma blocking_call_is_base_call_witness :
  let h1 : gmap loc DecoratedMethod :=
    {[ 0 := DecoratedMethod_init (Function "incr") (Some ["blocking"])
              (Some []) (Some []) ]} in
  let h2 : gmap loc DecoratedMethod :=
    {[ 0 := {| _func := Function "incr"; _instance := Demo.actor;
               decorations := list_to_set ["blocking"];
               before := []; after := [] |} ]} in
  let p := __call__ {| _func := Function "incr"; _instance := Demo.actor;
                       decorations := list_to_set ["blocking"];
                       before := []; after := [] |} [VInt 3] [] in
  (blocking (Function "incr") ∅ = Some (Decorated 0, h1) /\
   __get__ 0 Demo.actor h1 = Some (Decorated 0, h2) /\
   call_through (Decorated 0) h2 [VInt 3] [] = Some p) /\
  run (redis_handler Demo.fn) p Demo.stale
  = ([called Demo.actor [VInt 3] [] (Function "incr") (Ok (VInt 1))],
     Ok (VInt 1), Demo.stale).
Proof.
  intros h1 h2 p.
  assert (H1 : blocking (Function "incr") ∅ = Some (Decorated 0, h1))
    by (vm_compute; reflexivity).
  assert (H2 : __get__ 0 Demo.actor h1 = Some (Decorated 0, h2))
    by (vm_compute; reflexivity).
  assert (H3 : call_through (Decorated 0) h2 [VInt 3] [] = Some p)
    by (vm_compute; reflexivity).
  split; [repeat split; assumption|].
  exact (blocking_call_is_base_call (redis_handler Demo.fn) ∅ h1 h2 "incr" 0
           Demo.actor (Decorated 0) [VInt 3] [] p Demo.stale H1 H2 H3).
Defined.

(** X2.  [singular] applied to a method that is already decorated (here
    with [blocking]) makes closures over the [DecoratedMethod] object,
    which has no [__name__]: every call of the resulting method reads the
    clock and then raises [AttributeError]; no redis command is sent and
    the base method is not called. *)
Theorem singular_over_blocking_raises {W} (h : handler pyE W)
    (h0 h1 h2 h3 : heap) (name : string) (l : loc) (obj : value)
    (c c' : callable) (args : list value) (kwargs : kwargs_t)
    (p : prog pyE value) (w : W) :
  blocking (Function name) h0 = Some (Decorated l, h1) ->
  singular (Decorated l) h1 = Some (c, h2) ->
  __get__ l obj h2 = Some (c', h3) ->
  call_through c' h3 args kwargs = Some p ->
  exists current w',
    run h (inline_closures p) w
    = ([Entry time current], Err (AttributeError "__name__"), w').
Proof.
  intros H1 H2 H3 H4. unfold blocking, alloc in H1. injection H1 as <- <-.
  unfold singular in H2. rewrite lookup_insert_eq in H2. simpl in H2.
  injection H2 as <- <-.
  unfold __get__ in H3. rewrite lookup_insert_eq in H3. simpl in H3.
  injection H3 as <- <-.
  unfold call_through in H4. rewrite lookup_insert_eq in H4. simpl in H4.
  injection H4 as <-.
  unfold __call__. simpl.
  destruct (h _ time w) as [current w1]. exists current, w1. reflexivity.
Qed.

Lemma singular_over_blocking_raises_witness :
  let dm (inst : value) :=
    {| _func := Function "incr"; _instance := inst;
       decorations := list_to_set ["blocking"] ∪ {["singular"]};
       before := [before_singular_of (Decorated 0)];
       after := [after_singular_of (Decorated 0)] |} in
  let h1 : gmap loc DecoratedMethod :=
    {[ 0 := DecoratedMethod_init (Function "incr") (Some ["blocking"])
              None None ]} in
  let h2 : gmap loc DecoratedMethod := {[ 0 := dm VNone ]} in
  let h3 : gmap loc DecoratedMethod := {[ 0 := dm Demo.actor ]} in
  let p := __call__ (dm Demo.actor) [] [] in
  (blocking (Function "incr") ∅ = Some (Decorated 0, h1) /\
   singular (Decorated 0) h1 = Some (Decorated 0, h2) /\
   __get__ 0 Demo.actor h2 = Some (Decorated 0, h3) /\
   call_through (Decorated 0) h3 [] [] = Some p) /\
  exists current w',
    run (redis_handler Demo.fn) (inline_closures p) Demo.stale
    = ([Entry time current], Err (AttributeError "__name__"), w').
Proof.
  intros dm h1 h2 h3 p.
  assert (H1 : blocking (Function "incr") ∅ = Some (Decorated 0, h1))
    by (vm_compute; reflexivity).
  assert (H2 : singular (Decorated 0) h1 = Some (Decorated 0, h2))
    by (vm_compute; reflexivity).
  assert (H3 : __get__ 0 Demo.actor h2 = Some (Decorated 0, h3))
    by (vm_compute; reflexivity).
  assert (H4 : call_through (Decorated 0) h3 [] [] = Some p)
    by (vm_compute; reflexivity).
  split; [repeat split; assumption|].
  exact (singular_over_blocking_raises (redis_handler Demo.fn) ∅ h1 h2 h3
           "incr" 0 Demo.actor (Decorated 0) (Decorated 0) [] [] p Demo.stale
           H1 H2 H3 H4).
Defined.

(** The acquire hook over a named function, for an instance holding the
    client [r]. *)
Lemma acquire_cases {W} (h : handler pyE W) (name : string) (oid : nat)
    (r : conn) (args : list value) (kwargs : kwargs_t) (w : W) tr res w' :
  run h (before_singular (Function name) (VObject oid (Some r)) args kwargs) w
    = (tr, res, w') ->
  lock_attempt r name tr res.
Proof.
  intros H. simpl in H.
  destruct (h _ time w) as [current w1]. exists current. simpl.
  destruct (h _ (setnx _ _ _) w1) as [[|] w2]; simpl in H.
  { destruct (h _ (expire _ _ _) w2) as [t w3]. injection H as <- <- <-.
    left. eauto. }
  right. destruct (h _ (get _ _) w2) as [[held|] w3]; simpl in H.
  2:{ injection H as <- <- <-. do 3 right. eauto. }
  destruct (current <? held)%float eqn:Hheld; simpl in H.
  { injection H as <- <- <-. left. eauto. }
  right. destruct (h _ (getset _ _ _) w3) as [[previous|] w4]; simpl in H.
  2:{ injection H as <- <- <-. do 2 right. eauto 6. }
  destruct (current <? previous)%float eqn:Hprev; simpl in H.
  { injection H as <- <- <-. left. eauto 6. }
  destruct (h _ (expire _ _ _) w4) as [t w5]. injection H as <- <- <-.
  right. left. eauto 7.
Qed.

(** X3.  A whole call of a function decorated with [singular], on an
    instance holding a redis client, whatever redis, the clock and the
    function answer: the base function is called only after the lock
    attempt returned [None]; a vetoed attempt returns [False] without
    calling it; when the function raises the exception propagates and no
    delete is sent, so the lock stays until it expires; when it returns
    the lock key is deleted and its result returned, except in a call
    with a keyword argument named [result], where the call of the release
    hook raises [TypeError] and no delete is sent either. *)
Theorem singular_call_protocol {W} (h : handler pyE W) (h0 h1 h2 : heap)
    (name : string) (l : loc) (oid : nat) (r : conn) (c : callable)
    (args : list value) (kwargs : kwargs_t) (p : prog pyE value)
    (w : W) tr res w' :
  singular (Function name) h0 = Some (Decorated l, h1) ->
  __get__ l (VObject oid (Some r)) h1 = Some (c, h2) ->
  call_through c h2 args kwargs = Some p ->
  run h (inline_closures p) w = (tr, res, w') ->
  guarded_call r name (VObject oid (Some r)) args kwargs tr res.
Proof.
  intros H1 H2 H3 H.
  rewrite (bound_new_method singular ["singular"]
             [before_singular_of (Function name)]
             [after_singular_of (Function name)] (Function name)
             h0 h1 h2 l _ c args kwargs p eq_refl H1 H2 H3) in H.
  unfold __call__ in H. cbn -[before_singular after_singular keyword] in H.
  rewrite run_bind_outcome in H.
  destruct (run h (before_singular _ _ _ _) w) as [[tr1 res1] w1] eqn:Hacq.
  apply acquire_cases in Hacq. exists tr1, res1. split; [exact Hacq|].
  destruct res1 as [v|e].
  2:{ simpl in H. injection H as <- <- <-. left.
      rewrite app_nil_r. repeat split. discriminate. }
  destruct v;
    try (simpl in H; injection H as <- <- <-; left;
         rewrite app_nil_r; repeat split; discriminate).
  right. split; [reflexivity|].
  cbn -[after_singular keyword] in H.
  destruct (h _ (Call (Function name) _ args kwargs) w1) as [[v|e] w2].
  2:{ simpl in H. injection H as <- <- <-. left. exists e. split; reflexivity. }
  cbn -[after_singular keyword] in H.
  destruct (keyword "result" kwargs) as [x|] eqn:Hkw.
  { simpl in H. injection H as <- <- <-. right. right.
    exists v, x. split; [reflexivity|]. split; reflexivity. }
  rewrite run_bind_outcome in H. simpl in H.
  destruct (h _ (delete _ _) w2) as [n w3]. simpl in H.
  injection H as <- <- <-. right. left. exists v, n.
  split; [reflexivity|]. split; reflexivity.
Qed.

Lemma singular_call_protocol_witness :
  let self := VObject 7 (Some 0) in
  let dm (inst : value) :=
    {| _func := Function "incr"; _instance := inst;
       decorations := list_to_set ["singular"];
       before := [before_singular_of (Function "incr")];
       after := [after_singular_of (Function "incr")] |} in
  let h1 : gmap loc DecoratedMethod := {[ 0 := dm VNone ]} in
  let h2 : gmap loc DecoratedMethod := {[ 0 := dm self ]} in
  let p := __call__ (dm self) [] [] in
  let tr := [Entry time 100%float;
             Entry (setnx 0 "global.lock:incr" 103%float) false;
             Entry (get 0 "global.lock:incr") (Some 50%float);
             Entry (getset 0 "global.lock:incr" 103%float) (Some 50%float);
             Entry (expire 0 "global.lock:incr" 2) true;
             called self [] [] (Function "incr") (Ok (VInt 1));
             Entry (delete 0 "global.lock:incr") 1%Z] in
  (singular (Function "incr") ∅ = Some (Decorated 0, h1) /\
   __get__ 0 self h1 = Some (Decorated 0, h2) /\
   call_through (Decorated 0) h2 [] [] = Some p /\
   run (redis_handler Demo.fn) (inline_closures p) Demo.stale
   = (tr, Ok (VInt 1), mkRedis 100 ∅ ∅)) /\
  guarded_call 0 "incr" self [] [] tr (Ok (VInt 1)).
Proof.
  intros self dm h1 h2 p tr.
  assert (H1 : singular (Function "incr") ∅ = Some (Decorated 0, h1))
    by (vm_compute; reflexivity).
  assert (H2 : __get__ 0 self h1 = Some (Decorated 0, h2))
    by (vm_compute; reflexivity).
  assert (H3 : call_through (Decorated 0) h2 [] [] = Some p)
    by (vm_compute; reflexivity).
  assert (H4 : run (redis_handler Demo.fn) (inline_closures p) Demo.stale
               = (tr, Ok (VInt 1), mkRedis 100 ∅ ∅))
    by (vm_compute; reflexivity).
  split; [repeat split; assumption|].
  exact (singular_call_protocol (redis_handler Demo.fn) ∅ h1 h2 "incr" 0 7 0
           (Decorated 0) [] [] p Demo.stale tr (Ok (VInt 1)) (mkRedis 100 ∅ ∅)
           H1 H2 H3 H4).
Defined.

(** The same call naming an argument [result]: the lock is taken, the
    function runs, and the release is never sent. *)
Example singular_call_with_result_keyword :
  run (redis_handler Demo.fn)
      (inline_closures (__call__ Demo.guarded [] Demo.by_keyword)) Demo.stale
  = ([Entry time 100%float;
      Entry (setnx 0 "global.lock:incr" 103%float) false;
      Entry (get 0 "global.lock:incr") (Some 50%float);
      Entry (getset 0 "global.lock:incr" 103%float) (Some 50%float);
      Entry (expire 0 "global.lock:incr" 2) true;
      called Demo.actor [] Demo.by_keyword (Function "incr") (Ok (VInt 1))],
     Err (TypeError
        "after_singular() got multiple values for keyword argument 'result'"),
     mkRedis 100 {["global.lock:incr" := 103%float]}
                 {["global.lock:incr" := 2%Z]}).
Proof. vm_compute. reflexivity. Qed.

(** X4.  On a method that is already decorated, [blocking] and
    [singular] commute: either order leaves the same heap and returns the
    same object.  [blocking] is idempotent there; [singular] is not, each
    application appends one more pair of hooks. *)
Theorem decorators_compose (h : heap) (l : loc) (dm : DecoratedMethod) :
  h !! l = Some dm ->
  ('(c, h1) ← blocking (Decorated l) h; singular c h1)
    = ('(c, h1) ← singular (Decorated l) h; blocking c h1)
  /\ ('(c, h1) ← blocking (Decorated l) h; blocking c h1)
     = blocking (Decorated l) h
  /\ exists h2 dm2,
       ('(c, h1) ← singular (Decorated l) h; singular c h1)
         = Some (Decorated l, h2) /\
       h2 !! l = Some dm2 /\
       length (before dm2) = length (before dm) + 2 /\
       length (after dm2) = length (after dm) + 2.
Proof.
  intros Hl. unfold blocking, singular. rewrite Hl. simpl.
  rewrite !lookup_insert_eq. simpl. rewrite !insert_insert_eq.
  split; [|split].
  - do 3 f_equal. f_equal.
    rewrite <- !(assoc_L (∪)). f_equal; apply (comm_L (∪)).
  - do 3 f_equal. f_equal.
    rewrite <- (assoc_L (∪)). f_equal; apply (idemp_L (∪)).
  - eexists _, _. split; [reflexivity|]. split; [apply lookup_insert_eq|].
    simpl. rewrite !length_app. simpl. split; lia.
Qed.

Lemma decorators_compose_witness :
  Demo.decorated_heap !! 4 =
    Some {| _func := Function "incr"; _instance := VNone;
            decorations := {["blocking"]};
            before := [Function "quiet"]; after := [Function "mute"] |} /\
  ('(c, h1) ← blocking (Decorated 4) Demo.decorated_heap; singular c h1)
    = ('(c, h1) ← singular (Decorated 4) Demo.decorated_heap; blocking c h1).
Proof.
  split; [reflexivity|].
  exact (proj1 (decorators_compose Demo.decorated_heap 4 _ eq_refl)).
Defined.

(** X5.  [__get__] stores the instance in the method object itself and
    returns that object, so the object is shared by all instances: after
    the method has been looked up on [a] and then on [b], a call through
    the reference obtained from [a] runs with [b] as receiver. *)
Theorem get_rebinds_shared_method (h : heap) (l : loc) (dm : DecoratedMethod)
    (a b : value) :
  h !! l = Some dm ->
  exists from_a from_b h1 h2,
    __get__ l a h = Some (from_a, h1) /\
    __get__ l b h1 = Some (from_b, h2) /\
    from_a = from_b /\
    forall args kwargs,
      call_through from_a h2 args kwargs
      = Some (__call__ {| _func := _func dm; _instance := b;
                          decorations := decorations dm;
                          before := before dm; after := after dm |}
                       args kwargs).
Proof.
  intros Hl. unfold __get__. rewrite Hl. simpl.
  eexists _, _, _, _. split; [reflexivity|].
  rewrite lookup_insert_eq. simpl. split; [reflexivity|].
  split; [reflexivity|]. intros args kwargs. unfold call_through.
  rewrite lookup_insert_eq. reflexivity.
Qed.

Lemma get_rebinds_shared_method_witness :
  Demo.decorated_heap !! 4 =
    Some {| _func := Function "incr"; _instance := VNone;
            decorations := {["blocking"]};
            before := [Function "quiet"]; after := [Function "mute"] |} /\
  exists from_a from_b h1 h2,
    __get__ 4 (VObject 1 None) Demo.decorated_heap = Some (from_a, h1) /\
    __get__ 4 (VObject 2 None) h1 = Some (from_b, h2) /\
    from_a = from_b /\
    forall args kwargs,
      call_through from_a h2 args kwargs
      = Some (__call__ {| _func := Function "incr";
                          _instance := VObject 2 None;
                          decorations := {["blocking"]};
                          before := [Function "quiet"];
                          after := [Function "mute"] |}
                       args kwargs).
Proof.
  split; [reflexivity|].
  exact (get_rebinds_shared_method Demo.decorated_heap 4 _ (VObject 1 None)
           (VObject 2 None) eq_refl).
Defined.

(** The expiry written by an attempt at clock reading [current]. *)
Lemma lock_expires_eq (current : float) :
  (current + float_of_int expiry + float_of_int 1)%float
  = (current + 2 + 1)%float.
Proof. reflexivity. Qed.

Lemma lock_key_eq (name : string) :
  lock_context +:+ ":" +:+ name = "global.lock:" +:+ name.
Proof. reflexivity. Qed.

(** X6.  Mutual exclusion in sequence, against a single-client store
    that obeys the coordination-service contract: when the key is absent
    and the clock reading is below its own expiry, an attempt acquires
    the lock, leaving the expiry [clock + 2 + 1] under the key with a TTL
    of 2, and a second attempt at the same clock reading is vetoed and
    leaves the store as it is. *)
Theorem second_attempt_is_vetoed
    (fn : callable -> value -> list value -> kwargs_t -> result value)
    (name : string) (oid : nat) (r : conn) (args : list value)
    (kwargs : kwargs_t) (store : redis_world) :
  let attempt :=
    before_singular (Function name) (VObject oid (Some r)) args kwargs in
  let key := "global.lock:" +:+ name in
  keys store !! key = None ->
  (clock store <? clock store + 2 + 1)%float = true ->
  exists tr1 tr2 held,
    run (redis_handler fn) attempt store = (tr1, Ok VNone, held) /\
    keys held !! key = Some (clock store + 2 + 1)%float /\
    ttls held !! key = Some 2%Z /\
    run (redis_handler fn) attempt held = (tr2, Ok (VBool false), held).
Proof.
  intros attempt key Hk Hclock. subst attempt key.
  unfold before_singular, lock_name_of. simpl.
  rewrite !lock_expires_eq, ?lock_key_eq, Hk. simpl.
  rewrite ?lock_key_eq, lookup_insert_eq. simpl.
  eexists _, _, _. split; [reflexivity|].
  split; [apply lookup_insert_eq|]. split; [apply lookup_insert_eq|].
  simpl. rewrite ?lock_key_eq, lookup_insert_eq. simpl.
  rewrite ?lock_key_eq, lookup_insert_eq. simpl. rewrite Hclock. reflexivity.
Qed.

Lemma second_attempt_is_vetoed_witness :
  let attempt := before_singular (Function "incr") Demo.actor [] [] in
  let free := mkRedis 100 ∅ ∅ in
  (keys free !! "global.lock:incr" = None /\
   (clock free <? clock free + 2 + 1)%float = true) /\
  exists tr1 tr2 held,
    run (redis_handler Demo.fn) attempt free = (tr1, Ok VNone, held) /\
    keys held !! "global.lock:incr" = Some (100 + 2 + 1)%float /\
    ttls held !! "global.lock:incr" = Some 2%Z /\
    run (redis_handler Demo.fn) attempt held = (tr2, Ok (VBool false), held).
Proof.
  intros attempt free. split; [split; reflexivity|].
  exact (second_attempt_is_vetoed Demo.fn "incr" 7 0 [] [] free
           eq_refl eq_refl).
Defined.

(** X7.  Against the same store, an attempt that finds the key present
    decides by comparing the clock with the stored value, not by the
    key's TTL: while the clock is below the value the attempt is vetoed
    and writes nothing; otherwise it takes the lock over, writing its own
    expiry and a TTL of 2. *)
Theorem attempt_on_existing_key
    (fn : callable -> value -> list value -> kwargs_t -> result value)
    (name : string) (oid : nat) (r : conn) (args : list value)
    (kwargs : kwargs_t) (store : redis_world) (stored : float) :
  let attempt :=
    before_singular (Function name) (VObject oid (Some r)) args kwargs in
  let key := "global.lock:" +:+ name in
  keys store !! key = Some stored ->
  exists tr,
    run (redis_handler fn) attempt store
    = if (clock store <? stored)%float
      then (tr, Ok (VBool false), store)
      else (tr, Ok VNone,
            mkRedis (clock store)
                    (<[key := (clock store + 2 + 1)%float]> (keys store))
                    (<[key := 2%Z]> (ttls store))).
Proof.
  intros attempt key Hk. subst attempt key.
  unfold before_singular, lock_name_of. simpl.
  rewrite !lock_expires_eq, ?lock_key_eq, Hk. simpl.
  rewrite ?lock_key_eq, Hk. simpl.
  destruct (clock store <? stored)%float eqn:Hheld; simpl.
  - eexists. reflexivity.
  - rewrite ?lock_key_eq, Hk. simpl. rewrite Hheld. simpl.
    rewrite ?lock_key_eq, lookup_insert_eq. eexists. reflexivity.
Qed.

Lemma attempt_on_existing_key_witness :
  keys Demo.stale !! "global.lock:incr" = Some 50%float /\
  exists tr,
    run (redis_handler Demo.fn)
        (before_singular (Function "incr") Demo.actor [] []) Demo.stale
    = if (clock Demo.stale <? 50)%float
      then (tr, Ok (VBool false), Demo.stale)
      else (tr, Ok VNone,
            mkRedis (clock Demo.stale)
                    (<["global.lock:incr" := (clock Demo.stale + 2 + 1)%float]>
                       (keys Demo.stale))
                    (<["global.lock:incr" := 2%Z]> (ttls Demo.stale))).
Proof.
  split; [reflexivity|].
  exact (attempt_on_existing_key Demo.fn "incr" 7 0 [] [] Demo.stale 50%float
           eq_refl).
Defined.

(** X15.  A call returns [None] only when nothing had anything to say:
    all before-hooks returned [None], the base method returned [None]
    and all after-hooks returned [None].  So no hook can veto with
    [None], and no after-hook can replace a result by [None]. *)
Theorem none_result_means_all_none {W} (h : handler pyE W)
    (self : DecoratedMethod) (args : list value) (kwargs : kwargs_t)
    (w : W) tr w' :
  run h (__call__ self args kwargs) w = (tr, Ok VNone, w') ->
  tr = passed (_instance self) args kwargs (before self)
         ++ called (_instance self) args kwargs (_func self) (Ok VNone)
         :: passed (_instance self) (VNone :: args) kwargs (after self).
Proof.
  intros H. apply DecoratorsFacts.call_cases in H. simpl in H.
  destruct H as [(pre & callee & post & x & _ & Hx & _ & Hres)
                |[(e & _ & Hres)
                 |[(v & pre & callee & post & y & _ & Hy & _ & Hres)
                  |(v & Htr & Hres)]]].
  - symmetry in Hres. contradiction.
  - discriminate Hres.
  - symmetry in Hres. contradiction.
  - injection Hres as <-. exact Htr.
Qed.

Lemma none_result_means_all_none_witness :
  let self := Demo.method [Function "quiet"] [Function "mute"] in
  let self' := {| _func := Function "silent"; _instance := Demo.actor;
                  decorations := ∅; before := before self;
                  after := after self |} in
  let tr := [called Demo.actor [] [] (Function "quiet") (Ok VNone);
             called Demo.actor [] [] (Function "silent") (Ok VNone);
             called Demo.actor [VNone] [] (Function "mute") (Ok VNone)] in
  run (redis_handler Demo.fn) (__call__ self' [] []) Demo.stale
    = (tr, Ok VNone, Demo.stale) /\
  tr = passed Demo.actor [] [] (before self')
         ++ called Demo.actor [] [] (_func self') (Ok VNone)
         :: passed Demo.actor [VNone] [] (after self').
Proof.
  intros self self' tr.
  assert (H : run (redis_handler Demo.fn) (__call__ self' [] []) Demo.stale
              = (tr, Ok VNone, Demo.stale)) by reflexivity.
  split; [exact H|].
  exact (none_result_means_all_none (redis_handler Demo.fn) self' [] []
           Demo.stale tr Demo.stale H).
Defined.

(** X16.  On a receiver that has no [_redis] attribute (for instance a
    method called before any instance was bound, whose receiver is
    [None]), the acquire hook raises [AttributeError] after reading the
    clock and the release hook raises it at once: neither sends a redis
    command. *)
Theorem hooks_need_redis_client {W} (h : handler pyE W) (func : callable)
    (name : string) (self result : value) (e : exn)
    (args : list value) (kwargs : kwargs_t) (w : W) :
  __name__ func = Ok name ->
  _redis self = Err e ->
  (exists current w',
      run h (before_singular func self args kwargs) w
      = ([Entry time current], Err e, w'))
  /\ run h (after_singular func self result args kwargs) w = ([], Err e, w).
Proof.
  intros Hname Hredis. unfold before_singular, after_singular, lock_name_of.
  rewrite Hname, Hredis. simpl. split; [|reflexivity].
  destruct (h _ time w) as [current w1]. exists current, w1. reflexivity.
Qed.

Lemma hooks_need_redis_client_witness :
  (__name__ (Function "incr") = Ok "incr" /\
   _redis VNone = Err (AttributeError "_redis")) /\
  (exists current w',
      run (redis_handler Demo.fn)
          (before_singular (Function "incr") VNone [] []) Demo.held
      = ([Entry time current], Err (AttributeError "_redis"), w'))
  /\ run (redis_handler Demo.fn)
         (after_singular (Function "incr") VNone (VInt 1) [] []) Demo.held
     = ([], Err (AttributeError "_redis"), Demo.held).
Proof.
  split; [split; reflexivity|].
  exact (hooks_need_redis_client (redis_handler Demo.fn) (Function "incr")
           "incr" VNone (VInt 1) (AttributeError "_redis") [] [] Demo.held
           eq_refl eq_refl).
Defined.

End DecoratorsMore.

(** ** Further facts about rodario/actors/proxy.py *)

Module ProxyMore.
Import Proxy ProxyTrace.

(** X8.  [_handler] changes nothing when it raises: whatever the decoded
    message is (too short, not a sequence, an unhashable or unknown slot
    id), an exception leaves the registry and every queue as they were.
    In particular a response that lacks the result value does not consume
    the pending slot. *)
Theorem handler_failure_changes_nothing {O} (env : handler proxyE O)
    (w : proxy_world O) (data : value) tr (e : exn) w' :
  run (proxy_handler env) (_handler data) w = (tr, Err e, w') ->
  w' = w.
Proof.
  intros H. unfold _handler in H.
  destruct data as [| | | |s|l|]; simpl in H;
    try (injection H as <- _ <-; reflexivity).
  - destruct s as [|c s]; simpl in H;
      [injection H as <- _ <-; reflexivity|].
    destruct (_response_queues w !! String c EmptyString) as [q|]; simpl in H;
      [|injection H as <- _ <-; reflexivity].
    destruct s as [|c' s]; simpl in H;
      [injection H as <- _ <-; reflexivity|discriminate H].
  - destruct l as [|k l]; simpl in H;
      [injection H as <- _ <-; reflexivity|].
    destruct k as [| | | |key|l'|]; simpl in H;
      try (injection H as <- _ <-; reflexivity).
    destruct (_response_queues w !! key) as [q|]; simpl in H;
      [|injection H as <- _ <-; reflexivity].
    destruct l as [|v l]; simpl in H;
      [injection H as <- _ <-; reflexivity|discriminate H].
Qed.

Lemma handler_failure_changes_nothing_witness :
  run (proxy_handler oracle) (_handler (VList [VStr "s1"])) pending
    = ([Entry (getitem "s1") (Some 0)],
       Err (IndexError "index out of range"), pending) /\
  pending = pending.
Proof.
  split; [vm_compute; reflexivity|].
  symmetry.
  apply (handler_failure_changes_nothing oracle pending (VList [VStr "s1"])
           [Entry (getitem "s1") (Some 0)] (IndexError "index out of range")
           pending).
  vm_compute. reflexivity.
Defined.

(** X9.  Request and response round trip on one proxy: a call whose
    publish reaches a subscriber, under a slot id not already pending,
    returns a new empty queue registered under that id; when the response
    [(slot, v)] is then handled, the queue holds exactly [v], the registry
    is what it was before the call, and the caller's [get] on the queue
    receives [v] unchanged. *)
Theorem call_and_response_round_trip {O} (env : handler proxyE O)
    (w : proxy_world O) (pid u m : string) (args : list value)
    (kwargs : list (string * value)) (key : string) (count : Z)
    (o1 o2 : O) (v : value) :
  env _ uuid4 (outside w) = (key, o1) ->
  env _ (publish ("actor:" +:+ u) (mkRequest pid key m args kwargs)) o1
    = (count, o2) ->
  count <> 0%Z ->
  _response_queues w !! key = None ->
  exists q tr1 w1 tr2 w2,
    run (proxy_handler env) (_proxy pid u m args kwargs) w = (tr1, Ok q, w1) /\
    queues w !! q = None /\
    _response_queues w1 = <[key := q]> (_response_queues w) /\
    queues w1 = <[q := []]> (queues w) /\
    run (proxy_handler env) (_handler (VList [VStr key; v])) w1
      = (tr2, Ok tt, w2) /\
    queues w2 !! q = Some [v] /\
    _response_queues w2 = _response_queues w /\
    (run (proxy_handler env) (trigger (queue_get q)) w2).1.2 = Ok v.
Proof.
  intros Hu Hp Hc Hk. unfold _proxy, _handler. simpl. unfold ask.
  rewrite Hu. simpl. rewrite Hp. simpl.
  destruct (Z.eqb_spec count 0) as [->|_]; [contradiction|]. simpl.
  rewrite !lookup_insert_eq. simpl.
  eexists _, _, _, _, _. split; [reflexivity|].
  split; [apply not_elem_of_dom, is_fresh|].
  split; [reflexivity|]. split; [reflexivity|].
  simpl. rewrite !lookup_insert_eq. simpl.
  split; [reflexivity|]. simpl.
  split; [rewrite !lookup_insert_eq; reflexivity|].
  split; [apply delete_insert_id, Hk|].
  rewrite !lookup_insert_eq. reflexivity.
Qed.

Lemma call_and_response_round_trip_witness :
  (oracle _ uuid4 (outside idle)
     = ("p1", mkOutside ["s1"; "s2"] 1 (VList [VStr "ping"; VStr "_stop"])) /\
   oracle _ (publish "actor:a1" (mkRequest "me" "p1" "ping" [] []))
          (mkOutside ["s1"; "s2"] 1 (VList [VStr "ping"; VStr "_stop"]))
     = (1%Z, mkOutside ["s1"; "s2"] 1 (VList [VStr "ping"; VStr "_stop"])) /\
   1%Z <> 0%Z /\
   _response_queues idle !! "p1" = None) /\
  exists q tr1 w1 tr2 w2,
    run (proxy_handler oracle) (_proxy "me" "a1" "ping" [] []) idle
      = (tr1, Ok q, w1) /\
    queues idle !! q = None /\
    _response_queues w1 = <["p1" := q]> (_response_queues idle) /\
    queues w1 = <[q := []]> (queues idle) /\
    run (proxy_handler oracle) (_handler (VList [VStr "p1"; VStr "pong"])) w1
      = (tr2, Ok tt, w2) /\
    queues w2 !! q = Some [VStr "pong"] /\
    _response_queues w2 = _response_queues idle /\
    (run (proxy_handler oracle) (trigger (queue_get q)) w2).1.2
      = Ok (VStr "pong").
Proof.
  split; [repeat split; try reflexivity; discriminate|].
  apply (call_and_response_round_trip oracle idle "me" "a1" "ping" [] []
           "p1" 1%Z
           (mkOutside ["s1"; "s2"] 1 (VList [VStr "ping"; VStr "_stop"]))
           (mkOutside ["s1"; "s2"] 1 (VList [VStr "ping"; VStr "_stop"]))
           (VStr "pong"));
    [reflexivity|reflexivity|discriminate|reflexivity].
Defined.

(** One round of the installing loop on a non-empty name. *)
Lemma install_step (c : Ascii.ascii) (s : string) (rest : list value)
    (acc : list string) :
  install (VStr (String c s) :: rest) acc
  = if public (String c s) then install rest (acc ++ [String c s])
    else install rest acc.
Proof.
  destruct c as [[] [] [] [] [] [] [] []]; try reflexivity.
  destruct s; reflexivity.
Qed.

(** The loop run over non-empty names, followed by whatever comes
    next. *)
Lemma install_app (names : list string) (rest : list value)
    (acc : list string) :
  Forall (fun n => n <> EmptyString) names ->
  install (map VStr names ++ rest) acc
  = install rest (acc ++ List.filter public names).
Proof.
  intros Hne. revert acc. induction Hne as [|n names Hn _ IH]; intros acc.
  - simpl. rewrite app_nil_r. reflexivity.
  - destruct n as [|c s]; [contradiction|].
    change (map VStr (String c s :: names) ++ rest)
      with (VStr (String c s) :: (map VStr names ++ rest)).
    rewrite install_step. simpl List.filter.
    destruct (public (String c s)).
    + rewrite IH, <- app_assoc. reflexivity.
    + apply IH.
Qed.

(** X10.  The installing loop of the constructor, given non-empty names,
    installs exactly the names that do not start with an underscore, in
    the order given; an empty name after them makes the whole loop raise
    [IndexError] on [name[0]]. *)
Theorem install_keeps_public_names (names : list string) (acc : list string) :
  Forall (fun n => n <> EmptyString) names ->
  install (map VStr names) acc = Ok (acc ++ List.filter public names)
  /\ forall rest,
       install (map VStr (names ++ EmptyString :: rest)) acc
       = Err (IndexError "string index out of range").
Proof.
  intros Hne. split.
  - rewrite <- (app_nil_r (map VStr names)).
    rewrite (install_app names [] acc Hne). reflexivity.
  - intros rest. rewrite map_app.
    rewrite (install_app names _ acc Hne). reflexivity.
Qed.

Lemma install_keeps_public_names_witness :
  Forall (fun n => n <> EmptyString) ["_get_methods"; "ping"; "_stop"; "pong"] /\
  install (map VStr ["_get_methods"; "ping"; "_stop"; "pong"]) []
  = Ok ([] ++ List.filter public ["_get_methods"; "ping"; "_stop"; "pong"]).
Proof.
  assert (H : Forall (fun n => n <> EmptyString)
                     ["_get_methods"; "ping"; "_stop"; "pong"])
    by (repeat constructor; discriminate).
  split; [exact H|].
  exact (proj1 (install_keeps_public_names _ [] H)).
Defined.

(** The empty name makes the loop fail on [name[0]]. *)
Example install_empty_name :
  install [VStr "ping"; VStr ""] []
  = Err (IndexError "string index out of range").
Proof. reflexivity. Qed.

(** Whatever the names are (strings or not), the loop only adds public
    names. *)
Lemma install_public (names : list value) :
  forall acc installed,
    install names acc = Ok installed ->
    Forall (fun n => public n = true) acc ->
    Forall (fun n => public n = true) installed.
Proof.
  induction names as [|name names IH]; intros acc installed H Hacc.
  - injection H as <-. exact Hacc.
  - destruct name as [| | | |s|l|]; try discriminate H.
    + destruct s as [|c s]; [discriminate H|].
      rewrite install_step in H.
      destruct (public (String c s)) eqn:Hp.
      * eapply IH; [exact H|]. apply Forall_app. split; [exact Hacc|].
        constructor; [exact Hp|constructor].
      * eapply IH; eassumption.
    + destruct l as [|x l]; [discriminate H|].
      destruct x as [| | | |s0| |]; try discriminate H.
      destruct s0 as [|c0 s1]; [discriminate H|].
      destruct c0 as [[] [] [] [] [] [] [] []]; try discriminate H.
      destruct s1; [|discriminate H].
      simpl in H. eapply IH; eassumption.
Qed.

(** X11.  Every proxy the constructor returns, by either way of
    construction and whatever the environment answers, has only public
    methods installed: no name starting with an underscore (such as
    [_get_methods]) is ever proxied. *)
Theorem init_installs_public_only {W} (h : handler proxyE W) (w : W)
    (actor uuid : argument) tr (p : ActorProxy) w' :
  run h (__init__ actor uuid) w = (tr, Ok p, w') ->
  Forall (fun n => public n = true) (methods p).
Proof.
  intros H. unfold __init__ in H. simpl in H.
  destruct (h _ uuid4 w) as [pid w1].
  destruct (h _ new_response_queues w1) as [[] w2].
  destruct (h _ (subscribe _) w2) as [[] w3].
  destruct (h _ start_thread w3) as [[] w4].
  assert (Hactor : forall a t,
    run h (names <- Ret (install (map VStr (actor_methods a)) []) ;;
           ret (mkActorProxy pid (actor_uuid a) names)) w4
      = (t, Ok p, w') -> Forall (fun n => public n = true) (methods p)).
  { intros a t Ha. simpl in Ha.
    destruct (install (map VStr (actor_methods a)) []) as [names|e] eqn:Hi;
      simpl in Ha; [|discriminate Ha].
    injection Ha as _ <- _. simpl.
    eapply install_public; [exact Hi|constructor]. }
  assert (Huuid : forall u t,
    run h (q <- _proxy pid u "_get_methods" [] [] ;;
           pre_methods <- trigger (queue_get q) ;;
           methods <- Ret (iterate pre_methods) ;;
           names <- Ret (install methods []) ;;
           ret (mkActorProxy pid u names)) w4
      = (t, Ok p, w') -> Forall (fun n => public n = true) (methods p)).
  { intros u t Hu. unfold _proxy in Hu. simpl in Hu.
    destruct (h _ uuid4 w4) as [key w5].
    destruct (h _ (publish _ _) w5) as [count w6].
    destruct (count =? 0)%Z; simpl in Hu; [discriminate Hu|].
    destruct (h _ Queue w6) as [q w7].
    destruct (h _ (setitem _ _) w7) as [[] w8].
    destruct (h _ (getitem _) w8) as [[q'|] w9]; simpl in Hu;
      [|discriminate Hu].
    destruct (h _ (queue_get _) w9) as [reply w10].
    destruct (iterate reply) as [names|e]; simpl in Hu; [|discriminate Hu].
    destruct (install names []) as [installed|e] eqn:Hi; simpl in Hu;
      [|discriminate Hu].
    injection Hu as _ <- _. simpl.
    eapply install_public; [exact Hi|constructor]. }
  destruct (run h _ w4) as [[t res] w5] eqn:Hrun.
  injection H as _ -> ->.
  destruct actor as [|a|s|v]; destruct uuid as [|a'|s'|v'];
    try discriminate Hrun;
    first [exact (Hactor _ _ Hrun) | exact (Huuid _ _ Hrun)].
Qed.

Lemma init_installs_public_only_witness :
  let tr := [Entry uuid4 "p1"; Entry new_response_queues tt;
             Entry (subscribe "proxy:p1") tt; Entry start_thread tt;
             Entry uuid4 "s1";
             Entry (publish "actor:a1"
                      (mkRequest "p1" "s1" "_get_methods" [] [])) 1%Z;
             Entry Queue 0; Entry (setitem "s1" 0) tt;
             Entry (getitem "s1") (Some 0);
             Entry (queue_get 0) (VList [VStr "ping"; VStr "_stop"])] in
  (run (proxy_handler oracle) (__init__ Omitted (AStr "a1")) idle).1
    = (tr, Ok (mkActorProxy "p1" "a1" ["ping"])) /\
  Forall (fun n => public n = true) ["ping"].
Proof.
  intros tr. split; [vm_compute; reflexivity|].
  apply (init_installs_public_only (proxy_handler oracle) idle Omitted
           (AStr "a1") tr (mkActorProxy "p1" "a1" ["ping"])
           (run (proxy_handler oracle) (__init__ Omitted (AStr "a1")) idle).2).
  vm_compute. reflexivity.
Defined.

(** X12.  Attaching by uuid to an actor nobody serves: when every
    publish reports zero subscribers the constructor raises the
    no-such-actor error of [_proxy], and it does so after the reply
    channel has been subscribed and the listener thread started. *)
Theorem init_by_uuid_without_actor {W} (h : handler proxyE W) (w : W)
    (u : string) :
  (forall channel message w0, (h _ (publish channel message) w0).1 = 0%Z) ->
  exists pid key w',
    run h (__init__ Omitted (AStr u)) w
    = ([Entry uuid4 pid; Entry new_response_queues tt;
        Entry (subscribe ("proxy:" +:+ pid)) tt; Entry start_thread tt;
        Entry uuid4 key;
        Entry (publish ("actor:" +:+ u)
                 (mkRequest pid key "_get_methods" [] [])) 0%Z],
       Err (Exception "No such actor"), w').
Proof.
  intros Hzero. unfold __init__, _proxy. simpl.
  destruct (h _ uuid4 w) as [pid w1].
  destruct (h _ new_response_queues w1) as [[] w2].
  destruct (h _ (subscribe _) w2) as [[] w3].
  destruct (h _ start_thread w3) as [[] w4].
  destruct (h _ uuid4 w4) as [key w5].
  pose proof (Hzero ("actor:" +:+ u)
                (mkRequest pid key "_get_methods" [] []) w5) as Hc.
  destruct (h _ (publish _ _) w5) as [count w6]. simpl in Hc. subst count.
  exists pid, key, w6. reflexivity.
Qed.

Lemma init_by_uuid_without_actor_witness :
  (forall channel message w0,
      (unserved _ (publish channel message) w0).1 = 0%Z) /\
  exists pid key w',
    run unserved (__init__ Omitted (AStr "a1")) deserted
    = ([Entry uuid4 pid; Entry new_response_queues tt;
        Entry (subscribe ("proxy:" +:+ pid)) tt; Entry start_thread tt;
        Entry uuid4 key;
        Entry (publish "actor:a1"
                 (mkRequest pid key "_get_methods" [] [])) 0%Z],
       Err (Exception "No such actor"), w').
Proof.
  split; [intros; reflexivity|].
  apply (init_by_uuid_without_actor unserved deserted "a1").
  intros; reflexivity.
Defined.

(** X13.  A proxy cloned from a local actor and a proxy attached by that
    actor's uuid, to which the actor answered [_get_methods] with the
    list of its method names, address the same actor and expose the same
    methods. *)
Theorem init_both_ways_agree {W1 W2} (h1 : handler proxyE W1)
    (h2 : handler proxyE W2) (w1 : W1) (w2 : W2) (a : Actor)
    tr1 tr2 (p1 p2 : ActorProxy) w1' w2' :
  run h1 (__init__ (AnActor a) Omitted) w1 = (tr1, Ok p1, w1') ->
  run h2 (__init__ Omitted (AStr (actor_uuid a))) w2 = (tr2, Ok p2, w2') ->
  replies tr2 = [VList (map VStr (actor_methods a))] ->
  uuid p1 = uuid p2 /\ methods p1 = methods p2.
Proof.
  intros H1 H2 Hr. unfold __init__, _proxy in H1, H2. simpl in H1, H2.
  destruct (h1 _ uuid4 w1) as [pid1 v1].
  destruct (h1 _ new_response_queues v1) as [[] v2].
  destruct (h1 _ (subscribe _) v2) as [[] v3].
  destruct (h1 _ start_thread v3) as [[] v4].
  destruct (install (map VStr (actor_methods a)) []) as [names|e] eqn:Hi;
    simpl in H1; [|discriminate H1].
  injection H1 as _ <- _.
  destruct (h2 _ uuid4 w2) as [pid2 x1].
  destruct (h2 _ new_response_queues x1) as [[] x2].
  destruct (h2 _ (subscribe _) x2) as [[] x3].
  destruct (h2 _ start_thread x3) as [[] x4].
  destruct (h2 _ uuid4 x4) as [key x5].
  destruct (h2 _ (publish _ _) x5) as [count x6].
  destruct (count =? 0)%Z; simpl in H2; [discriminate H2|].
  destruct (h2 _ Queue x6) as [q x7].
  destruct (h2 _ (setitem _ _) x7) as [[] x8].
  destruct (h2 _ (getitem _) x8) as [[q'|] x9]; simpl in H2;
    [|discriminate H2].
  destruct (h2 _ (queue_get _) x9) as [reply x10].
  destruct (iterate reply) as [listed|e] eqn:Hit; simpl in H2;
    [|injection H2 as _ Hres _; discriminate Hres].
  destruct (install listed []) as [installed|e] eqn:Hi2; simpl in H2;
    [|injection H2 as _ Hres _; discriminate Hres].
  injection H2 as <- <- _. simpl in Hr. injection Hr as ->.
  simpl in Hit. injection Hit as <-.
  rewrite Hi in Hi2. injection Hi2 as <-. split; reflexivity.
Qed.

Lemma init_both_ways_agree_witness :
  let answering :=
    mkWorld ∅ ∅ (mkOutside ["p2"; "s1"] 1
                   (VList [VStr "_get_methods"; VStr "ping"])) in
  let p1 := mkActorProxy "p1" "a1" ["ping"] in
  let p2 := mkActorProxy "p2" "a1" ["ping"] in
  ((run (proxy_handler oracle) (__init__ (AnActor an_actor) Omitted) idle).1.2
     = Ok p1 /\
   (run (proxy_handler oracle) (__init__ Omitted (AStr "a1")) answering).1.2
     = Ok p2 /\
   replies (run (proxy_handler oracle) (__init__ Omitted (AStr "a1"))
                answering).1.1
     = [VList (map VStr (actor_methods an_actor))]) /\
  uuid p1 = uuid p2 /\ methods p1 = methods p2.
Proof.
  intros answering p1 p2.
  split; [repeat split; vm_compute; reflexivity|].
  apply (init_both_ways_agree (proxy_handler oracle) (proxy_handler oracle)
           idle answering an_actor
           (run (proxy_handler oracle) (__init__ (AnActor an_actor) Omitted)
                idle).1.1
           (run (proxy_handler oracle) (__init__ Omitted (AStr "a1"))
                answering).1.1
           p1 p2
           (run (proxy_handler oracle) (__init__ (AnActor an_actor) Omitted)
                idle).2
           (run (proxy_handler oracle) (__init__ Omitted (AStr "a1"))
                answering).2);
    vm_compute; reflexivity.
Defined.

(** X14.  Cloning a local actor: whatever is passed as uuid, the
    constructor sends no request at all; it draws its proxy id,
    subscribes, starts the listener, and returns a proxy for the actor's
    uuid exposing the actor's public methods in the order listed. *)
Theorem init_from_actor {W} (h : handler proxyE W) (w : W) (a : Actor)
    (uuid_argument : argument) :
  Forall (fun n => n <> EmptyString) (actor_methods a) ->
  exists pid w',
    run h (__init__ (AnActor a) uuid_argument) w
    = ([Entry uuid4 pid; Entry new_response_queues tt;
        Entry (subscribe ("proxy:" +:+ pid)) tt; Entry start_thread tt],
       Ok (mkActorProxy pid (actor_uuid a)
             (List.filter public (actor_methods a))),
       w').
Proof.
  intros Hne. unfold __init__. simpl.
  destruct (h _ uuid4 w) as [pid w1].
  destruct (h _ new_response_queues w1) as [[] w2].
  destruct (h _ (subscribe _) w2) as [[] w3].
  destruct (h _ start_thread w3) as [[] w4].
  exists pid, w4.
  rewrite <- (app_nil_r (map VStr (actor_methods a))).
  rewrite (install_app (actor_methods a) [] [] Hne). reflexivity.
Qed.

Lemma init_from_actor_witness :
  Forall (fun n => n <> EmptyString) (actor_methods an_actor) /\
  exists pid w',
    run (proxy_handler oracle) (__init__ (AnActor an_actor) (Other (VInt 3)))
        idle
    = ([Entry uuid4 pid; Entry new_response_queues tt;
        Entry (subscribe ("proxy:" +:+ pid)) tt; Entry start_thread tt],
       Ok (mkActorProxy pid (actor_uuid an_actor)
             (List.filter public (actor_methods an_actor))),
       w').
Proof.
  assert (H : Forall (fun n => n <> EmptyString) (actor_methods an_actor))
    by (repeat constructor; discriminate).
  split; [exact H|].
  exact (init_from_actor (proxy_handler oracle) idle an_actor
           (Other (VInt 3)) H).
Defined.

End ProxyMore.
